(** * Content-generation demo flows: a shallow embedding

    The three demo scripts under [task/] upload an image to the attachment
    store, ask a model about it, or ask an image model for a picture and
    save what comes back.  Everything they do is an interaction with the
    outside world (the gateway client, the bucket client, the file system,
    the clock, the console), so the embedding is a small error monad that
    emits a chronological trace of calls together with the answers the
    environment gave.  The environment is an arbitrary strategy: each
    answer may depend on the whole history so far. *)

From Stdlib Require Import Ascii String List ZArith NArith Lia.
From Stdlib Require Import Strings.Byte.
From stdpp Require Import base strings list gmap pretty.

Local Open Scope string_scope.
Local Open Scope list_scope.

(** ** Python values the flows handle *)

(** [bytes] objects. *)
Abbreviation bytes := (list Byte.byte).

(** Modelled from the spec: [task/_models/role.py] is not among the sources;
    the spec gives the closed enum [system | user | assistant]. *)
Inductive Role := SYSTEM | USER | ASSISTANT.

(** Modelled from the spec: [task/_models/custom_content.py] is not among
    the sources; the spec gives [{ title: string, url: string?, type: string }]
    and the scripts build it with the keywords [title], [url], [type]. *)
Record Attachment := mkAttachment {
  title : string;
  url : option string;
  type : string
}.

(** Modelled from the spec: [CustomContent] is
    [{ attachments: ordered sequence of Attachment }]. *)
Record CustomContent := mkCustomContent {
  attachments : list Attachment
}.

(** Modelled from the spec: [task/_models/message.py] is not among the
    sources.  The scripts build [Message(role=, content=<str>)] with an
    optional [custom_content=]. *)
Record Message := mkMessage {
  role : Role;
  content : string;
  custom_content : option CustomContent
}.

(** Modelled from the spec: [task/image_to_text/openai/message.py] is not
    among the sources.  The script builds [TxtContent(text=)],
    [ImgContent(image_url=ImgUrl(url=))] and
    [ContentedMessage(role=, content=[...])]. *)
Record ImgUrl := mkImgUrl { img_url : string }.

Inductive Content :=
| TxtContent (text : string)
| ImgContent (image_url : ImgUrl).

Record ContentedMessage := mkContentedMessage {
  cm_role : Role;
  cm_content : list Content
}.

(** [get_completion(messages=...)] receives a list whose elements are of
    either message class. *)
Inductive AnyMessage :=
| PlainMsg (m : Message)
| ContentedMsg (m : ContentedMessage).

(** What [get_completion] returns: a message whose [content] and
    [custom_content] may each be [None]. *)
Record Response := mkResponse {
  resp_content : option string;
  resp_custom_content : option CustomContent
}.

(** A [dict[str, str]] literal; Python dicts keep insertion order, so the
    order of the pairs is part of the value. *)
Abbreviation CustomFields := (list (string * string)).

(** The JSON object the store answers an upload with. *)
Abbreviation UploadResponse := (gmap string string).

(** [pathlib.Path] as its tuple of parts. *)
Abbreviation Path := (list string).

Definition parent (p : Path) : Path :=
  match p with
  | ["/"] => p
  | _ => removelast p
  end.

(** [p / name] *)
Definition truediv (p : Path) (name : string) : Path := p ++ [name].

Definition fspath (p : Path) : string :=
  match p with
  | "/" :: rest => "/" +:+ String.concat "/" rest
  | _ => String.concat "/" p
  end.

Record DateTime := mkDateTime {
  year : nat; month : nat; day : nat;
  hour : nat; minute : nat; second : nat
}.

(** ** Exceptions and results *)

Inductive Exn := PyExn (cls : string) (msg : string).

Inductive Result (A : Type) :=
| Ok (a : A)
| Raise (e : Exn).
Arguments Ok {A} a.
Arguments Raise {A} e.

(** ** Observable events: each call with the answer it got *)

Inductive Event :=
| EvPrint (text : string)
| EvModelClient (endpoint deployment_name api_key : string) (r : Result unit)
| EvGetCompletion (messages : list AnyMessage)
                  (custom_fields : option CustomFields) (r : Result Response)
| EvBucketClient (api_key base_url : string) (r : Result unit)
| EvAEnter (r : Result unit)
| EvAExit (r : Result unit)
| EvPutFile (name mime_type : string) (data : bytes) (r : Result UploadResponse)
| EvGetFile (file_url : string) (r : Result bytes)
| EvOpen (path : string) (mode : string) (r : Result unit)
| EvRead (path : string) (r : Result bytes)
| EvWrite (path : string) (data : bytes) (r : Result unit)
| EvClose (path : string) (r : Result unit)
| EvNow (t : DateTime).

Abbreviation Trace := (list Event).

(** The environment: configuration constants (the module
    [task/_utils/constants.py] is not among the sources, so its three
    names are parameters), the location of each script, and one oracle per
    external call.  An oracle sees the history of events so far. *)
Record Env := mkEnv {
  API_KEY : string;
  DIAL_URL : string;
  DIAL_CHAT_COMPLETIONS_ENDPOINT : string;
  dial_itt_file : Path;      (* [__file__] of task_dial_itt.py *)
  openai_itt_file : Path;    (* [__file__] of task_openai_itt.py *)
  model_client_init : Trace -> string -> string -> string -> Result unit;
  get_completion : Trace -> list AnyMessage -> option CustomFields -> Result Response;
  bucket_client_init : Trace -> string -> string -> Result unit;
  aenter : Trace -> Result unit;
  aexit : Trace -> Result unit;
  put_file : Trace -> string -> string -> bytes -> Result UploadResponse;
  get_file : Trace -> string -> Result bytes;
  file_open : Trace -> string -> string -> Result unit;
  file_read : Trace -> string -> Result bytes;
  file_write : Trace -> string -> bytes -> Result unit;
  file_close : Trace -> string -> Result unit;
  now : Trace -> DateTime
}.

(** ** The effect monad

    A computation reads the environment and the history, and returns its
    result with the events it emitted itself, oldest first. *)

Definition M (A : Type) : Type := Env -> Trace -> Result A * Trace.

Definition ret {A} (a : A) : M A := fun _ _ => (Ok a, []).

Definition bind {A B} (m : M A) (f : A -> M B) : M B :=
  fun env h =>
    match m env h with
    | (Ok a, t1) => let '(r, t2) := f a env (h ++ t1) in (r, t1 ++ t2)
    | (Raise e, t1) => (Raise e, t1)
    end.

Notation "x <- m ;; k" := (bind m (fun x => k))
  (at level 100, m at level 99, right associativity).
Notation "m ;;; k" := (bind m (fun _ => k))
  (at level 100, right associativity).

(** One external call: ask the oracle, log call and answer. *)
Definition call {A} (oracle : Env -> Trace -> Result A) (ev : Result A -> Event) : M A :=
  fun env h => let r := oracle env h in (r, [ev r]).

(** Access to the configuration constants and [__file__]. *)
Definition with_env {A} (f : Env -> M A) : M A := fun env h => f env env h.

(** [with enter as x: body], also [async with]: once [enter] has
    succeeded, [leave] runs whether [body] returned or raised; an exception
    of [body] is re-raised afterwards (the context managers used here do
    not swallow exceptions), unless [leave] raises itself. *)
Definition with_ {A B} (enter : M A) (leave : A -> M unit) (body : A -> M B) : M B :=
  fun env h =>
    match enter env h with
    | (Raise e, t1) => (Raise e, t1)
    | (Ok a, t1) =>
        let '(r, t2) := body a env (h ++ t1) in
        let '(x, t3) := leave a env (h ++ t1 ++ t2) in
        (match x with Raise e' => Raise e' | Ok _ => r end, t1 ++ t2 ++ t3)
    end.

(** [for idx, x in enumerate(l, start): body] *)
Fixpoint for_enumerate {A} (idx : nat) (l : list A) (body : nat -> A -> M unit) : M unit :=
  match l with
  | [] => ret tt
  | x :: l' => body idx x ;;; for_enumerate (S idx) l' body
  end.

(** *** The primitive calls *)

(** [print(text)]: writing to the console is taken to succeed. *)
Definition print (text : string) : M unit :=
  fun _ _ => (Ok tt, [EvPrint text]).

Definition DialModelClient (endpoint deployment_name api_key : string) : M unit :=
  call (fun env h => model_client_init env h endpoint deployment_name api_key)
       (EvModelClient endpoint deployment_name api_key).

Definition client_get_completion (messages : list AnyMessage)
    (custom_fields : option CustomFields) : M Response :=
  call (fun env h => get_completion env h messages custom_fields)
       (EvGetCompletion messages custom_fields).

Definition DialBucketClient (api_key base_url : string) : M unit :=
  call (fun env h => bucket_client_init env h api_key base_url)
       (EvBucketClient api_key base_url).

Definition bucket_aenter : M unit := call aenter EvAEnter.
Definition bucket_aexit : M unit := call aexit EvAExit.

Definition bucket_put_file (name mime_type : string) (data : bytes) : M UploadResponse :=
  call (fun env h => put_file env h name mime_type data) (EvPutFile name mime_type data).

Definition bucket_get_file (u : string) : M bytes :=
  call (fun env h => get_file env h u) (EvGetFile u).

Definition open_ (path mode : string) : M unit :=
  call (fun env h => file_open env h path mode) (EvOpen path mode).

Definition read (path : string) : M bytes :=
  call (fun env h => file_read env h path) (EvRead path).

Definition write (path : string) (data : bytes) : M unit :=
  call (fun env h => file_write env h path data) (EvWrite path data).

(** [f.close()] at the exit of [with open(...)]: it flushes what
    [write] buffered, so it can raise as [write] can. *)
Definition close (path : string) : M unit :=
  call (fun env h => file_close env h path) (EvClose path).

Definition datetime_now : M DateTime :=
  fun env h => let t := now env h in (Ok t, [EvNow t]).

(** [async with DialBucketClient(api_key=, base_url=) as bucket_client: body] *)
Definition async_with_bucket_client {B} (api_key base_url : string) (body : M B) : M B :=
  DialBucketClient api_key base_url ;;;
  with_ bucket_aenter (fun _ => bucket_aexit) (fun _ => body).

(** [with open(path, mode) as f: body] *)
Definition with_open {B} (path mode : string) (body : M B) : M B :=
  with_ (open_ path mode) (fun _ => close path) (fun _ => body).

(** ** Python string helpers *)

Definition nl : string := String "010"%char "".

(** [s * n] *)
Fixpoint repeat_str (s : string) (n : nat) : string :=
  match n with
  | O => ""
  | S n' => s +:+ repeat_str s n'
  end.

(** [str(n)] for a non-negative [int]. *)
Definition str_int (n : nat) : string := pretty n.

(** An optional string inside an f-string: [None] prints as its name. *)
Definition str_opt (o : option string) : string :=
  match o with
  | Some s => s
  | None => "None"
  end.

(** Truth value of an optional string: [None] and the empty string are
    false. *)
Definition truthy (o : option string) : bool :=
  match o with
  | Some (String _ _) => true
  | _ => false
  end.

(** Zero-padded decimal of width at least [w]. *)
Definition pad0 (w : nat) (n : nat) : string :=
  let s := str_int n in repeat_str "0" (w - String.length s) +:+ s.

(** [t.strftime("%Y%m%d_%H%M%S")] *)
Definition strftime (t : DateTime) : string :=
  pad0 4 (year t) +:+ pad0 2 (month t) +:+ pad0 2 (day t) +:+ "_" +:+
  pad0 2 (hour t) +:+ pad0 2 (minute t) +:+ pad0 2 (second t).

(** ** [base64.b64encode] (RFC 4648, section 4, with padding) *)

Definition b64_alphabet : string :=
  "ABCDEFGHIJKLMNOPQRSTUVWXYZabcdefghijklmnopqrstuvwxyz0123456789+/".

Definition b64_pad : Byte.byte := byte_of_ascii "="%char.

Definition b64_char (i : N) : Byte.byte :=
  match String.get (N.to_nat i) b64_alphabet with
  | Some c => byte_of_ascii c
  | None => b64_pad
  end.

(** The [k]-th 6-bit group of a 24-bit quantum, counted from the low end. *)
Definition sextet (k : N) (n : N) : N := N.land (N.shiftr n (6 * k)) 63.

Definition quantum (b0 b1 b2 : Byte.byte) : N :=
  N.lor (N.shiftl (Byte.to_N b0) 16)
        (N.lor (N.shiftl (Byte.to_N b1) 8) (Byte.to_N b2)).

Fixpoint b64encode (s : bytes) : bytes :=
  match s with
  | [] => []
  | [b0] =>
      let n := quantum b0 Byte.x00 Byte.x00 in
      [b64_char (sextet 3 n); b64_char (sextet 2 n); b64_pad; b64_pad]
  | [b0; b1] =>
      let n := quantum b0 b1 Byte.x00 in
      [b64_char (sextet 3 n); b64_char (sextet 2 n); b64_char (sextet 1 n); b64_pad]
  | b0 :: b1 :: b2 :: rest =>
      let n := quantum b0 b1 b2 in
      b64_char (sextet 3 n) :: b64_char (sextet 2 n) ::
      b64_char (sextet 1 n) :: b64_char (sextet 0 n) :: b64encode rest
  end.

(** [b.decode('utf-8')]: the encoder's output is ASCII, where UTF-8
    decoding maps each byte to the character of the same code. *)
Definition decode_utf8 (b : bytes) : string := string_of_list_byte b.

Definition banner : string := repeat_str "=" 80.

(** ** task/text_to_image/task_tti.py *)

Module Size.
Definition square : string := "1024x1024".
Definition height_rectangle : string := "1024x1792".
Definition width_rectangle : string := "1792x1024".
End Size.

Module Style.
Definition natural : string := "natural".
Definition vivid : string := "vivid".
End Style.

Module Quality.
Definition standard : string := "standard".
Definition hd : string := "hd".
End Quality.

Module task_tti.

(** [f"generated_image_{timestamp}_{idx + 1}.png"] *)
Definition file_name_of (timestamp : string) (idx : nat) : string :=
  "generated_image_" +:+ timestamp +:+ "_" +:+ str_int (idx + 1) +:+ ".png".

(** The body of the loop of [_save_images]. *)
Definition save_one (total : nat) (idx : nat) (attachment : Attachment) : M unit :=
  if truthy (url attachment) then
    print (nl +:+ "Downloading image " +:+ str_int (idx + 1) +:+ "/" +:+
           str_int total +:+ "...") ;;;
    image_bytes <- bucket_get_file (default "" (url attachment)) ;;
    t <- datetime_now ;;
    let timestamp := strftime t in
    let file_name := file_name_of timestamp idx in
    with_open file_name "wb" (write file_name image_bytes) ;;;
    print ("Image saved locally as: " +:+ file_name)
  else ret tt.

Definition _save_images (attachments : list Attachment) : M unit :=
  with_env (fun env =>
    async_with_bucket_client (API_KEY env) (DIAL_URL env)
      (for_enumerate 0 attachments (save_one (length attachments)))).

(** The three lines printed for each attachment of the response. *)
Definition print_attachment (idx : nat) (attachment : Attachment) : M unit :=
  print ("Image " +:+ str_int (idx + 1) +:+ ":") ;;;
  print ("  - Title: " +:+ title attachment) ;;;
  print ("  - URL: " +:+ str_opt (url attachment)) ;;;
  print ("  - Type: " +:+ type attachment).

Definition custom_fields : CustomFields :=
  [("size", Size.square); ("quality", Quality.hd); ("style", Style.vivid)].

(** [custom_fields[key]] on the dict literal (the three keys the flow
    reads are all in it). *)
Definition getitem (d : CustomFields) (key : string) : string :=
  default "" (snd <$> List.find (fun kv => String.eqb (fst kv) key) d).

(** The part of [start] after [get_completion] has returned.
    [asyncio.run(_save_images(...))] runs the coroutine to its end and
    hands on its result or its exception: it is the call itself here, the
    script being started outside any event loop. *)
Definition handle_response (response : Response) : M unit :=
  print (nl +:+ banner) ;;;
  print "Image generation completed!" ;;;
  print banner ;;;
  print (nl +:+ "Response content: " +:+ str_opt (resp_content response) +:+ nl) ;;;
  match resp_custom_content response with
  | Some cc =>
      match attachments cc with
      | _ :: _ =>
          print ("Number of generated images: " +:+
                 str_int (length (attachments cc)) +:+ nl) ;;;
          for_enumerate 0 (attachments cc) print_attachment ;;;
          print (nl +:+ banner) ;;;
          print "Saving images locally..." ;;;
          print banner ;;;
          _save_images (attachments cc) ;;;
          print (nl +:+ banner) ;;;
          print "All images saved successfully!" ;;;
          print banner ;;;
          print (nl +:+ "Configuration used:") ;;;
          print ("  - Size: " +:+ getitem custom_fields "size") ;;;
          print ("  - Quality: " +:+ getitem custom_fields "quality") ;;;
          print ("  - Style: " +:+ getitem custom_fields "style") ;;;
          print (nl +:+ "Tip: You can modify custom_fields to change image parameters!") ;;;
          print "Try different sizes: square, height_rectangle, width_rectangle" ;;;
          print "Try different styles: natural, vivid" ;;;
          print "Try different quality: standard, hd" ;;;
          print (banner +:+ nl)
      | [] => print (nl +:+ "Warning: No images were generated in the response." +:+ nl)
      end
  | None => print (nl +:+ "Warning: No images were generated in the response." +:+ nl)
  end.

Definition start : M unit :=
  with_env (fun env =>
    print (nl +:+ banner) ;;;
    print "Text-to-Image Generation Task" ;;;
    print (banner +:+ nl) ;;;
    let deployment_name := "dall-e-3" in
    print ("Using model: " +:+ deployment_name) ;;;
    print "Note: If this model doesn't work, try these alternatives:" ;;;
    print "  - dalle-3" ;;;
    print "  - dall-e" ;;;
    print "  - imagegeneration" ;;;
    print ("Or check available models at: https://ai-proxy.lab.epam.com/openai/models" +:+ nl) ;;;
    DialModelClient (DIAL_CHAT_COMPLETIONS_ENDPOINT env) deployment_name (API_KEY env) ;;;
    let prompt := "Sunny day on Bali" in
    print ("Generating image for prompt: '" +:+ prompt +:+ "'" +:+ nl) ;;;
    let message := mkMessage USER prompt None in
    print ("Sending request to image generation model..." +:+ nl) ;;;
    response <- client_get_completion [PlainMsg message] (Some custom_fields) ;;
    handle_response response).

(** Executing the module: the definitions, then the call [start()] on
    its last line, whatever [__name__] is. *)
Definition module_body (__name__ : string) : M unit := start.

End task_tti.

(** ** task/image_to_text/task_dial_itt.py *)

Module task_dial_itt.

Definition _put_image : M Attachment :=
  with_env (fun env =>
    let file_name := "dialx-banner.png" in
    let image_path := truediv (parent (parent (parent (dial_itt_file env)))) file_name in
    let mime_type_png := "image/png" in
    async_with_bucket_client (API_KEY env) (DIAL_URL env)
      (with_open (fspath image_path) "rb"
         (image_bytes <- read (fspath image_path) ;;
          response <- bucket_put_file file_name mime_type_png image_bytes ;;
          ret (mkAttachment file_name (response !! "url") mime_type_png)))).

(** [asyncio.run(_put_image())] is the call [_put_image], as in
    [task_tti.handle_response]. *)
Definition start : M unit :=
  with_env (fun env =>
    DialModelClient (DIAL_CHAT_COMPLETIONS_ENDPOINT env) "gpt-4o" (API_KEY env) ;;;
    attachment <- _put_image ;;
    print (nl +:+ banner) ;;;
    print "Uploaded Image Attachment:" ;;;
    print banner ;;;
    print ("Title: " +:+ title attachment) ;;;
    print ("URL: " +:+ str_opt (url attachment)) ;;;
    print ("Type: " +:+ type attachment) ;;;
    print (banner +:+ nl) ;;;
    let message :=
      mkMessage USER "What do you see on this picture?"
                (Some (mkCustomContent [attachment])) in
    print ("Analyzing image..." +:+ nl) ;;;
    response <- client_get_completion [PlainMsg message] None ;;
    print (nl +:+ "Response: " +:+ str_opt (resp_content response) +:+ nl) ;;;
    print banner ;;;
    print "✅ Image analysis completed successfully!" ;;;
    print "Note: This approach uploads the image to DIAL bucket and references it via attachment." ;;;
    print "The key benefit is that we can use Models from different vendors (OpenAI, Google, Anthropic)." ;;;
    print "The DIAL Core adapts this attachment to Message content in appropriate format for each Model." ;;;
    print "TRY THIS APPROACH WITH DIFFERENT MODELS!" ;;;
    print (banner +:+ nl)).

(** The module ends with an unguarded [start()]. *)
Definition module_body (__name__ : string) : M unit := start.

End task_dial_itt.

(** ** task/image_to_text/openai/task_openai_itt.py *)

Module task_openai_itt.

Definition data_uri (base64_image : string) : string :=
  "data:image/png;base64," +:+ base64_image.

Definition start : M unit :=
  with_env (fun env =>
    let project_root := parent (parent (parent (parent (openai_itt_file env)))) in
    let image_path := truediv project_root "dialx-banner.png" in
    DialModelClient (DIAL_CHAT_COMPLETIONS_ENDPOINT env) "gpt-4o" (API_KEY env) ;;;
    print (nl +:+ banner) ;;;
    print "Analyzing image with BASE64 encoded format (dialx-banner.png)" ;;;
    print (banner +:+ nl) ;;;
    image_bytes <- with_open (fspath image_path) "rb" (read (fspath image_path)) ;;
    let base64_image := decode_utf8 (b64encode image_bytes) in
    let base64_message :=
      mkContentedMessage USER
        [TxtContent "What's in this image? Please describe it in detail.";
         ImgContent (mkImgUrl (data_uri base64_image))] in
    response_base64 <- client_get_completion [ContentedMsg base64_message] None ;;
    print (nl +:+ "Response: " +:+ str_opt (resp_content response_base64) +:+ nl) ;;;
    print (nl +:+ banner) ;;;
    print "Analyzing the same image with data URI format (demonstrating URL syntax)" ;;;
    print (banner +:+ nl) ;;;
    let data_uri_message :=
      mkContentedMessage USER
        [TxtContent "Describe the color scheme and branding elements in this image.";
         ImgContent (mkImgUrl (data_uri base64_image))] in
    response_data_uri <- client_get_completion [ContentedMsg data_uri_message] None ;;
    print (nl +:+ "Response: " +:+ str_opt (resp_content response_data_uri) +:+ nl) ;;;
    print (nl +:+ banner) ;;;
    print "✅ Both methods completed successfully!" ;;;
    print "Note: External URLs are not supported by DIAL proxy due to security restrictions." ;;;
    print "Use base64 data URIs for reliable image analysis with DIAL Core." ;;;
    print (banner +:+ nl)).

(** [if __name__ == "__main__": start()] *)
Definition module_body (__name__ : string) : M unit :=
  if String.eqb __name__ "__main__" then start else ret tt.

End task_openai_itt.

(** ** Concrete environments used to exercise the flows *)

Definition png_header : bytes :=
  [Byte.x89; Byte.x50; Byte.x4e; Byte.x47; Byte.x0d; Byte.x0a; Byte.x1a; Byte.x0a].

(** An environment in which every call succeeds: the gateway answers
    [response], the store answers uploads with [{"url": ...}] and downloads
    with the PNG header, and the clock is stopped. *)
Definition env_answering (response : Response) : Env := {|
  API_KEY := "secret";
  DIAL_URL := "https://dial.example.com";
  DIAL_CHAT_COMPLETIONS_ENDPOINT :=
    "https://dial.example.com/openai/deployments/{model}/chat/completions";
  dial_itt_file := ["/"; "repo"; "task"; "image_to_text"; "task_dial_itt.py"];
  openai_itt_file := ["/"; "repo"; "task"; "image_to_text"; "openai"; "task_openai_itt.py"];
  model_client_init := fun _ _ _ _ => Ok tt;
  get_completion := fun _ _ _ => Ok response;
  bucket_client_init := fun _ _ _ => Ok tt;
  aenter := fun _ => Ok tt;
  aexit := fun _ => Ok tt;
  put_file := fun _ name _ _ => Ok {[ "url" := "files/bucket/" +:+ name ]};
  get_file := fun _ _ => Ok png_header;
  file_open := fun _ _ _ => Ok tt;
  file_read := fun _ _ => Ok png_header;
  file_write := fun _ _ _ => Ok tt;
  file_close := fun _ _ => Ok tt;
  now := fun _ => mkDateTime 2024 1 15 10 30 45
|}.

Definition generated_1 : Attachment :=
  mkAttachment "generated_image_1.png"
               (Some "https://fake-bucket.example.com/files/image1.png") "image/png".
Definition pending_2 : Attachment :=
  mkAttachment "generated_image_2.png" None "image/png".
Definition generated_3 : Attachment :=
  mkAttachment "generated_image_3.png"
               (Some "https://fake-bucket.example.com/files/image3.png") "image/png".

Definition text_only : Response := mkResponse (Some "a caption") None.
Definition no_attachments : Response := mkResponse None (Some (mkCustomContent [])).
Definition three_images : Response :=
  mkResponse None (Some (mkCustomContent [generated_1; pending_2; generated_3])).

(** The same, but the store refuses every download. *)
Definition env_download_fails : Env :=
  let e := env_answering three_images in
  {| API_KEY := API_KEY e; DIAL_URL := DIAL_URL e;
     DIAL_CHAT_COMPLETIONS_ENDPOINT := DIAL_CHAT_COMPLETIONS_ENDPOINT e;
     dial_itt_file := dial_itt_file e; openai_itt_file := openai_itt_file e;
     model_client_init := model_client_init e; get_completion := get_completion e;
     bucket_client_init := bucket_client_init e;
     aenter := aenter e; aexit := aexit e;
     put_file := fun _ _ _ _ => Raise (PyExn "HTTPStatusError" "403");
     get_file := fun _ _ => Raise (PyExn "HTTPStatusError" "404");
     file_open := file_open e; file_read := file_read e;
     file_write := file_write e; file_close := file_close e; now := now e |}.

(** The same as [env_answering], but what was written cannot be flushed
    when the file is closed. *)
Definition env_close_fails : Env :=
  let e := env_answering three_images in
  {| API_KEY := API_KEY e; DIAL_URL := DIAL_URL e;
     DIAL_CHAT_COMPLETIONS_ENDPOINT := DIAL_CHAT_COMPLETIONS_ENDPOINT e;
     dial_itt_file := dial_itt_file e; openai_itt_file := openai_itt_file e;
     model_client_init := model_client_init e; get_completion := get_completion e;
     bucket_client_init := bucket_client_init e;
     aenter := aenter e; aexit := aexit e;
     put_file := put_file e; get_file := get_file e;
     file_open := file_open e; file_read := file_read e;
     file_write := file_write e;
     file_close := fun _ _ => Raise (PyExn "OSError" "No space left on device");
     now := now e |}.

(** ** Vocabulary of the properties *)

(** [emits P m]: whatever the environment and the history, every event
    [m] emits satisfies [P]. *)
Definition emits {A} (P : Event -> Prop) (m : M A) : Prop :=
  forall env h, Forall P (snd (m env h)).

Definition not_get_completion (e : Event) : Prop :=
  match e with EvGetCompletion _ _ _ => False | _ => True end.

Definition print_or_client (e : Event) : Prop :=
  match e with EvPrint _ | EvModelClient _ _ _ _ => True | _ => False end.

(** The last line [task_tti.start] prints when there is nothing to save. *)
Definition warning : string :=
  nl +:+ "Warning: No images were generated in the response." +:+ nl.

(** Events of the download path: the bucket client, its session, its
    calls, the clock and the file system. *)
Definition download_event (e : Event) : bool :=
  match e with
  | EvPrint _ | EvModelClient _ _ _ _ | EvGetCompletion _ _ _ => false
  | _ => true
  end.

(** The life of the store session along a trace: [session_scan n t] runs
    through [t] with [n] sessions open and returns how many are open at the
    end; it fails when a session is released that was never acquired, or
    when the store is called with no session open. *)
Fixpoint session_scan (n : nat) (t : Trace) : option nat :=
  match t with
  | [] => Some n
  | EvAEnter (Ok _) :: t' => session_scan (S n) t'
  | EvAExit _ :: t' =>
      match n with
      | S n' => session_scan n' t'
      | O => None
      end
  | (EvPutFile _ _ _ _ | EvGetFile _ _) :: t' =>
      match n with
      | S _ => session_scan n t'
      | O => None
      end
  | _ :: t' => session_scan n t'
  end.

Definition session_neutral (e : Event) : Prop :=
  match e with EvAEnter _ | EvAExit _ => False | _ => True end.

(** The paths a trace wrote to, oldest first. *)
Definition written_files (t : Trace) : list string :=
  omap (fun e => match e with EvWrite p _ _ => Some p | _ => None end) t.

Definition has_url (a : Attachment) : bool := truthy (url a).

Definition is_digit (c : ascii) : Prop := is_Some (Ascii.is_nat c).

Definition underscore : ascii := "_"%char.

(** A write is explained by the attachment at position [i] of [l] (the
    [base + i]-th of the whole list): the attachment has a non-empty url,
    the bytes written are those [get_file] had just returned for that url,
    and the file is the one named after the position and the clock. *)
Definition write_explained (base : nat) (l : list Attachment) (t : Trace)
    (name : string) (data : bytes) (rw : Result unit) : Prop :=
  exists i a u ts pre post,
    l !! i = Some a /\ url a = Some u /\ u <> "" /\
    name = task_tti.file_name_of (strftime ts) (base + i) /\
    t = pre ++ [EvGetFile u (Ok data); EvNow ts; EvOpen name "wb" (Ok tt);
                EvWrite name data rw] ++ post.

(** A file name built for position [base] or later. *)
Definition named_from (base : nat) (name : string) : Prop :=
  exists ts j, base <= j /\ name = task_tti.file_name_of ts j.

(** The attachments of [l] that have a url, each with its position in the
    whole list (the first of [l] is at [base]) and its url, in list order. *)
Fixpoint url_positions (base : nat) (l : list Attachment) : list (nat * string) :=
  match l with
  | [] => []
  | a :: l' =>
      (if has_url a then [(base, default "" (url a))] else [])
      ++ url_positions (S base) l'
  end.

(** The writes of a trace with the bytes written, oldest first. *)
Definition writes (t : Trace) : list (string * bytes) :=
  omap (fun e => match e with EvWrite p data _ => Some (p, data) | _ => None end) t.

(** In [t] the write [w] (a path and the bytes) saves the attachment at
    position [fst iu] with url [snd iu]: it comes right after the download
    of that url, writes the bytes the download returned, and goes to the
    file named after the position and the clock. *)
Definition saved_from (t : Trace) (iu : nat * string) (w : string * bytes) : Prop :=
  exists ts rw pre post,
    fst w = task_tti.file_name_of (strftime ts) (fst iu) /\
    t = pre ++ [EvGetFile (snd iu) (Ok (snd w)); EvNow ts;
                EvOpen (fst w) "wb" (Ok tt); EvWrite (fst w) (snd w) rw] ++ post.

(** What one turn of the loop of [_save_images] emits for the attachment
    at position [fst iu] with url [snd iu] of a list of [total], when
    every call of the turn succeeds. *)
Definition saved_block (total : nat) (iu : nat * string) (b : Trace) : Prop :=
  exists data ts,
    b = [EvPrint (nl +:+ "Downloading image " +:+ str_int (fst iu + 1) +:+ "/" +:+
                  str_int total +:+ "...");
         EvGetFile (snd iu) (Ok data);
         EvNow ts;
         EvOpen (task_tti.file_name_of (strftime ts) (fst iu)) "wb" (Ok tt);
         EvWrite (task_tti.file_name_of (strftime ts) (fst iu)) data (Ok tt);
         EvClose (task_tti.file_name_of (strftime ts) (fst iu)) (Ok tt);
         EvPrint ("Image saved locally as: " +:+
                  task_tti.file_name_of (strftime ts) (fst iu))].

(** The two shapes of a message's [content] field. *)
Inductive ContentShape :=
| PlainText (s : string)
| Parts (l : list Content).

Definition content_of (m : AnyMessage) : ContentShape :=
  match m with
  | PlainMsg m => PlainText (content m)
  | ContentedMsg m => Parts (cm_content m)
  end.

Definition custom_content_of (m : AnyMessage) : option CustomContent :=
  match m with
  | PlainMsg m => custom_content m
  | ContentedMsg _ => None
  end.

Definition is_plain_string (c : ContentShape) : bool :=
  match c with PlainText _ => true | Parts _ => false end.

Definition is_nonempty_sequence (c : ContentShape) : bool :=
  match c with
  | PlainText _ => false
  | Parts [] => false
  | Parts (_ :: _) => true
  end.

(** Exactly one of the two shapes: a plain string, or a non-empty sequence
    of parts. *)
Definition content_invariant (m : AnyMessage) : Prop :=
  xorb (is_plain_string (content_of m)) (is_nonempty_sequence (content_of m)) = true.

Definition custom_content_with_plain (m : AnyMessage) : Prop :=
  forall cc, custom_content_of m = Some cc -> is_plain_string (content_of m) = true.

(** The three demo flows. *)
Inductive Flow := TextToImage | DialImageToText | OpenAIImageToText.

Definition flow_start (f : Flow) : M unit :=
  match f with
  | TextToImage => task_tti.start
  | DialImageToText => task_dial_itt.start
  | OpenAIImageToText => task_openai_itt.start
  end.

(** ** The validating constructor of the content model *)

Module content_model.

Inductive ModelError := InvalidMessageError.

(** Modelled from the spec: the check on one part that
    [task/image_to_text/openai/message.py] (not among the sources) is
    specified to make: a text part needs a non-empty [text], an image
    part a non-empty [url]. *)
Definition part_ok (p : Content) : bool :=
  match p with
  | TxtContent t => negb (String.eqb t "")
  | ImgContent u => negb (String.eqb (img_url u) "")
  end.

(** Modelled from the spec: the constructor of a multimodal message,
    missing with [task/image_to_text/openai/message.py]: "Constructing a
    multimodal Message fails with InvalidMessageError if the content
    sequence is empty, or if a TextPart's text is empty, or if an
    ImagePart's url is empty." *)
Definition new_ContentedMessage (r : Role) (parts : list Content)
    : ContentedMessage + ModelError :=
  match parts with
  | [] => inr InvalidMessageError
  | _ :: _ =>
      if forallb part_ok parts
      then inl (mkContentedMessage r parts)
      else inr InvalidMessageError
  end.

End content_model.

(** ** The attachment store *)

Module store_model.

Inductive Cause :=
| Timeout
| NetworkUnreachable
| AuthFailure
| RemoteRejected (status : nat)
| DecodeFailure.

Inductive StoreError :=
| UploadError (cause : Cause)
| DownloadError (cause : Cause).

(** The remote store as the client sees it: whether it can be reached,
    whether the client's key is accepted, and the payloads it holds by
    url. *)
Record Store := mkStore {
  reachable : bool;
  authenticated : bool;
  objects : gmap string bytes
}.

(** A MIME string [type/subtype] with both sides non-empty. *)
Definition well_formed_mime (m : string) : bool :=
  match String.index 0 "/" m with
  | Some i => (0 <? i)%nat && (S i <? String.length m)%nat
  | None => false
  end.

Section Client.
(** The url under which the store files a payload is the store's
    choice ("a store-chosen namespace"). *)
Variable choose_url : Store -> string -> string.

(** Modelled from the spec: [upload] of the Attachment Store Client,
    whose code ([task/_utils/bucket_client.py]) is not among the
    sources: it "stores the payload under a store-chosen namespace" and
    "returns an Attachment with url populated", with [title] the name
    and [type] the MIME type; it fails with [UploadError] when the
    store is unreachable or the key is refused, and then returns no
    attachment. *)
Definition upload (name mime : string) (data : bytes) (st : Store)
    : (Attachment * Store) + StoreError :=
  if negb (reachable st) then inr (UploadError NetworkUnreachable)
  else if negb (authenticated st) then inr (UploadError AuthFailure)
  else
    let u := choose_url st name in
    inl (mkAttachment name (Some u) mime,
         mkStore (reachable st) (authenticated st) (<[u := data]> (objects st))).

(** Modelled from the spec: [download] of the same client: it
    "fetches the bytes at a previously obtained reference URL" and
    surfaces any other url as a [DownloadError]. *)
Definition download (u : string) (st : Store) : bytes + StoreError :=
  if negb (reachable st) then inr (DownloadError NetworkUnreachable)
  else if negb (authenticated st) then inr (DownloadError AuthFailure)
  else
    match objects st !! u with
    | Some data => inl data
    | None => inr (DownloadError (RemoteRejected 404))
    end.
End Client.

(** A store that files payloads under a fixed bucket. *)
Definition bucket_url (st : Store) (name : string) : string :=
  "files/bucket/" +:+ name.

Definition empty_store : Store := mkStore true true ∅.

End store_model.

(** ** Vocabulary of the further properties *)

(** An event whose recorded answer is an exception. *)
Definition failed (e : Event) : bool :=
  match e with
  | EvModelClient _ _ _ (Raise _) | EvGetCompletion _ _ (Raise _)
  | EvBucketClient _ _ (Raise _) | EvAEnter (Raise _) | EvAExit (Raise _)
  | EvPutFile _ _ _ (Raise _) | EvGetFile _ (Raise _)
  | EvOpen _ _ (Raise _) | EvRead _ (Raise _) | EvWrite _ _ (Raise _)
  | EvClose _ (Raise _) => true
  | _ => false
  end.

(** The events by which a [with] block leaves: closing the file, leaving
    the store session. *)
Definition cleanup (e : Event) : bool :=
  match e with
  | EvClose _ _ | EvAExit _ => true
  | _ => false
  end.

(** After the first failed call of a trace only cleanup follows. *)
Fixpoint halts_at_failure (t : Trace) : bool :=
  match t with
  | [] => true
  | e :: t' => if failed e then forallb cleanup t' else halts_at_failure t'
  end.

Definition raised {A} (r : Result A) : bool :=
  match r with Ok _ => false | Raise _ => true end.

(** A run is disciplined when its result is an exception exactly if one
    of the calls recorded in its trace failed, and nothing but cleanup
    follows the first failure. *)
Definition disciplined_run {A} (r : Result A) (t : Trace) : Prop :=
  raised r = existsb failed t /\ halts_at_failure t = true.

Definition disciplined {A} (m : M A) : Prop :=
  forall env h, disciplined_run (fst (m env h)) (snd (m env h)).

Definition only_cleanup {A} (m : M A) : Prop :=
  forall env h, forallb cleanup (snd (m env h)) = true.

(** The entry points of the three scripts. *)
Inductive EntryPoint :=
| PutImage
| SaveImages (attachments : list Attachment)
| Start (f : Flow).

Definition run_entry (p : EntryPoint) (env : Env) (h : Trace) : Result unit * Trace :=
  match p with
  | PutImage =>
      let '(r, t) := task_dial_itt._put_image env h in
      (match r with Ok _ => Ok tt | Raise e => Raise e end, t)
  | SaveImages atts => task_tti._save_images atts env h
  | Start f => flow_start f env h
  end.

(** The urls a trace asked the store for, oldest first. *)
Definition downloaded_urls (t : Trace) : list string :=
  omap (fun e => match e with EvGetFile u _ => Some u | _ => None end) t.

(** The urls of the attachments that have one, in list order. *)
Definition urls_of (atts : list Attachment) : list string :=
  omap (fun a => if has_url a then url a else None) atts.


Definition not_get_file (e : Event) : Prop :=
  match e with EvGetFile _ _ => False | _ => True end.

Definition not_write (e : Event) : Prop :=
  match e with EvWrite _ _ _ => False | _ => True end.

Definition is_print (e : Event) : Prop :=
  match e with EvPrint _ => True | _ => False end.

Definition no_store_event (e : Event) : Prop :=
  match e with
  | EvAEnter _ | EvAExit _ | EvPutFile _ _ _ _ | EvGetFile _ _ => False
  | _ => True
  end.

(** The life of the local file along a trace: [file_scan cur t] runs
    through [t] with [cur] the path currently open, if any, and returns
    what is open at the end.  It fails when a second file is opened while
    one is open, or when a path is read, written or closed that is not the
    open one. *)
Fixpoint file_scan (cur : option string) (t : Trace) : option (option string) :=
  match t with
  | [] => Some cur
  | EvOpen p _ (Ok _) :: t' =>
      match cur with
      | None => file_scan (Some p) t'
      | Some _ => None
      end
  | (EvRead p _ | EvWrite p _ _) :: t' =>
      match cur with
      | Some q => if String.eqb p q then file_scan cur t' else None
      | None => None
      end
  | EvClose p _ :: t' =>
      match cur with
      | Some q => if String.eqb p q then file_scan None t' else None
      | None => None
      end
  | _ :: t' => file_scan cur t'
  end.

Definition no_file_event (e : Event) : Prop :=
  match e with
  | EvOpen _ _ _ | EvRead _ _ | EvWrite _ _ _ | EvClose _ _ => False
  | _ => True
  end.

(** The message lists a trace handed to the gateway, oldest first. *)
Definition gateway_messages (t : Trace) : list (list AnyMessage) :=
  omap (fun e => match e with EvGetCompletion msgs _ _ => Some msgs | _ => None end) t.


(** The two requests of the inline-image flow for an image url [u]. *)
Definition openai_requests (u : string) : list (list AnyMessage) :=
  [[ContentedMsg
      (mkContentedMessage USER
         [TxtContent "What's in this image? Please describe it in detail.";
          ImgContent (mkImgUrl u)])];
   [ContentedMsg
      (mkContentedMessage USER
         [TxtContent "Describe the color scheme and branding elements in this image.";
          ImgContent (mkImgUrl u)])]].

(** The position of a character in the base64 alphabet. *)
Definition b64_index (b : Byte.byte) : option N :=
  (fix go (l : list Byte.byte) (i : N) : option N :=
     match l with
     | [] => None
     | x :: l' => if Byte.eqb x b then Some i else go l' (N.succ i)
     end) (list_byte_of_string b64_alphabet) 0%N.

(** The sixty-four sextets. *)
Definition sextets : list N := map N.of_nat (seq 0 64).

(** * Properties *)

(** ** Reasoning about emitted traces *)

Lemma run_bind {A B} (m : M A) (f : A -> M B) env h :
  bind m f env h =
  match m env h with
  | (Ok a, t1) => (fst (f a env (h ++ t1)), t1 ++ snd (f a env (h ++ t1)))
  | (Raise e, t1) => (Raise e, t1)
  end.
Proof.
  unfold bind. destruct (m env h) as [[a|e] t1]; [|reflexivity].
  destruct (f a env (h ++ t1)); reflexivity.
Qed.

Section Emits.
Context (P : Event -> Prop).

Lemma emits_ret {A} (a : A) : emits P (ret a).
Proof. intros env h. constructor. Qed.

Lemma emits_print s : P (EvPrint s) -> emits P (print s).
Proof. intros Hp env h. repeat constructor. exact Hp. Qed.

Lemma emits_call {A} (oracle : Env -> Trace -> Result A) ev :
  (forall r, P (ev r)) -> emits P (call oracle ev).
Proof. intros Hp env h. repeat constructor. apply Hp. Qed.

Lemma emits_now : (forall t, P (EvNow t)) -> emits P datetime_now.
Proof. intros Hp env h. repeat constructor. apply Hp. Qed.

Lemma emits_bind {A B} (m : M A) (f : A -> M B) :
  emits P m -> (forall a, emits P (f a)) -> emits P (bind m f).
Proof.
  intros Hm Hf env h. rewrite run_bind.
  specialize (Hm env h). destruct (m env h) as [[a|e] t1]; simpl in *; [|exact Hm].
  apply Forall_app. split; [exact Hm | apply Hf].
Qed.

Lemma emits_with {A B} (enter : M A) (leave : A -> M unit) (body : A -> M B) :
  emits P enter -> (forall a, emits P (leave a)) -> (forall a, emits P (body a)) ->
  emits P (with_ enter leave body).
Proof.
  intros He Hl Hb env h. unfold with_.
  specialize (He env h). destruct (enter env h) as [[a|e] t1]; simpl in *; [|exact He].
  specialize (Hb a env (h ++ t1)). destruct (body a env (h ++ t1)) as [r t2].
  specialize (Hl a env (h ++ t1 ++ t2)). destruct (leave a env (h ++ t1 ++ t2)) as [x t3].
  simpl in *. rewrite !Forall_app. auto.
Qed.

Lemma emits_with_env {A} (f : Env -> M A) :
  (forall env, emits P (f env)) -> emits P (with_env f).
Proof. intros Hf env h. apply Hf. Qed.

Lemma emits_for_enumerate {A} (body : nat -> A -> M unit) l :
  (forall idx x, emits P (body idx x)) ->
  forall idx, emits P (for_enumerate idx l body).
Proof.
  intros Hb. induction l as [|x l IH]; intros idx; simpl.
  - apply emits_ret.
  - apply emits_bind; [apply Hb | intros _; apply IH].
Qed.
End Emits.

Lemma emits_In {A} (P : Event -> Prop) (m : M A) env h e :
  emits P m -> In e (snd (m env h)) -> P e.
Proof. intros Hm Hin. exact (proj1 (List.Forall_forall _ _) (Hm env h) e Hin). Qed.

(** Discharges the goals of the [emits] calculus, following the syntax of
    the computation. *)
Ltac emits_step :=
  lazymatch goal with
  | |- emits _ (with_env _) => apply emits_with_env; intros ?
  | |- emits _ (bind _ _) => apply emits_bind; [|intros ?]
  | |- emits _ (with_ _ _ _) => apply emits_with; [|intros ?|intros ?]
  | |- emits _ (async_with_bucket_client _ _ _) => unfold async_with_bucket_client
  | |- emits _ (with_open _ _ _) => unfold with_open
  | |- emits _ (for_enumerate _ _ _) => apply emits_for_enumerate; intros ? ?
  | |- emits _ (ret _) => apply emits_ret
  | |- emits _ (print _) => apply emits_print; exact I
  | |- emits _ (close _) => apply emits_call; intros ?; exact I
  | |- emits _ datetime_now => apply emits_now; intros ?; exact I
  | |- emits _ (DialModelClient _ _ _) => apply emits_call; intros ?; exact I
  | |- emits _ (client_get_completion _ _) => apply emits_call; intros ?; exact I
  | |- emits _ (DialBucketClient _ _) => apply emits_call; intros ?; exact I
  | |- emits _ bucket_aenter => apply emits_call; intros ?; exact I
  | |- emits _ bucket_aexit => apply emits_call; intros ?; exact I
  | |- emits _ (bucket_put_file _ _ _) => apply emits_call; intros ?; exact I
  | |- emits _ (bucket_get_file _) => apply emits_call; intros ?; exact I
  | |- emits _ (open_ _ _) => apply emits_call; intros ?; exact I
  | |- emits _ (read _) => apply emits_call; intros ?; exact I
  | |- emits _ (write _ _) => apply emits_call; intros ?; exact I
  end.
Ltac emits_tac := repeat emits_step.


(** ** Inversion of runs

    [m env h = (r, t)] reads: started after history [h], [m] ends with
    result [r] having emitted [t]. *)

Lemma bind_inv {A B} (m : M A) (f : A -> M B) env h r t :
  bind m f env h = (r, t) ->
  (exists e, m env h = (Raise e, t) /\ r = Raise e) \/
  (exists a t1 t2, m env h = (Ok a, t1) /\ f a env (h ++ t1) = (r, t2) /\ t = t1 ++ t2).
Proof.
  unfold bind. destruct (m env h) as [[a|e] t1].
  - destruct (f a env (h ++ t1)) as [r2 t2] eqn:Ef. intros [= <- <-].
    right. exists a, t1, t2. auto.
  - intros [= <- <-]. left. exists e. auto.
Qed.

Lemma with_inv {A B} (enter : M A) (leave : A -> M unit) (body : A -> M B) env h r t :
  with_ enter leave body env h = (r, t) ->
  (exists e, enter env h = (Raise e, t) /\ r = Raise e) \/
  (exists a t1 rb t2 x t3,
      enter env h = (Ok a, t1) /\
      body a env (h ++ t1) = (rb, t2) /\
      leave a env (h ++ t1 ++ t2) = (x, t3) /\
      r = match x with Raise e' => Raise e' | Ok _ => rb end /\
      t = t1 ++ t2 ++ t3).
Proof.
  unfold with_. destruct (enter env h) as [[a|e] t1].
  - destruct (body a env (h ++ t1)) as [rb t2] eqn:Eb.
    destruct (leave a env (h ++ t1 ++ t2)) as [x t3] eqn:El. intros [= <- <-].
    right. exists a, t1, rb, t2, x, t3. auto.
  - intros [= <- <-]. left. exists e. auto.
Qed.

Lemma ret_inv {A} (a : A) env h r t : ret a env h = (r, t) -> r = Ok a /\ t = [].
Proof. intros [= <- <-]. auto. Qed.

Lemma print_inv s env h r t : print s env h = (r, t) -> r = Ok tt /\ t = [EvPrint s].
Proof. intros [= <- <-]. auto. Qed.

Lemma now_inv env h r t :
  datetime_now env h = (r, t) -> r = Ok (now env h) /\ t = [EvNow (now env h)].
Proof. intros [= <- <-]. auto. Qed.

Lemma call_inv {A} (oracle : Env -> Trace -> Result A) ev env h r t :
  call oracle ev env h = (r, t) -> oracle env h = r /\ t = [ev r].
Proof. intros [= <- <-]. auto. Qed.

(** Decomposes a run hypothesis along the syntax of the computation. *)
Ltac inv_result H :=
  first [ discriminate H | injection H as H; subst | subst ].

Ltac run_inv H :=
  lazymatch type of H with
  | bind _ _ _ _ = _ =>
      let Hk := fresh "Hk" in
      apply bind_inv in H;
      destruct H as [(? & H & ?)|(? & ? & ? & H & Hk & ?)];
      [ run_inv H | cbv beta in Hk; run_inv H; run_inv Hk ]
  | with_ _ _ _ _ _ = _ =>
      let Hb := fresh "Hb" in
      let Hl := fresh "Hl" in
      apply with_inv in H;
      destruct H as [(? & H & ?)|(? & ? & ? & ? & ? & ? & H & Hb & Hl & ? & ?)];
      [ run_inv H | cbv beta in Hb, Hl; run_inv H; run_inv Hb; run_inv Hl ]
  | with_env _ _ _ = _ => unfold with_env in H; run_inv H
  | async_with_bucket_client _ _ _ _ _ = _ =>
      unfold async_with_bucket_client in H; run_inv H
  | with_open _ _ _ _ _ = _ => unfold with_open in H; run_inv H
  | ret _ _ _ = _ => apply ret_inv in H; destruct H as [H ?]; inv_result H
  | print _ _ _ = _ => apply print_inv in H; destruct H as [H ?]; inv_result H
  | close _ _ _ = _ => unfold close in H; run_inv H
  | datetime_now _ _ = _ => apply now_inv in H; destruct H as [H ?]; inv_result H
  | call _ _ _ _ = _ => apply call_inv in H; destruct H as [H ?]
  | DialModelClient _ _ _ _ _ = _ => unfold DialModelClient in H; run_inv H
  | client_get_completion _ _ _ _ = _ => unfold client_get_completion in H; run_inv H
  | DialBucketClient _ _ _ _ = _ => unfold DialBucketClient in H; run_inv H
  | bucket_aenter _ _ = _ => unfold bucket_aenter in H; run_inv H
  | bucket_aexit _ _ = _ => unfold bucket_aexit in H; run_inv H
  | bucket_put_file _ _ _ _ _ = _ => unfold bucket_put_file in H; run_inv H
  | bucket_get_file _ _ _ = _ => unfold bucket_get_file in H; run_inv H
  | open_ _ _ _ _ = _ => unfold open_ in H; run_inv H
  | read _ _ _ = _ => unfold read in H; run_inv H
  | write _ _ _ _ = _ => unfold write in H; run_inv H
  | _ => idtac
  end.

(** After [run_inv]: drops impossible cases and names the answers of the
    oracles by their values. *)
Ltac run_simpl :=
  subst; try discriminate;
  repeat match goal with
         | x : unit |- _ => destruct x
         | H : Ok ?v = ?rhs |- _ =>
             lazymatch rhs with
             | Ok _ => fail
             | Raise _ => fail
             | _ => rewrite <- H in *
             end
         | H : Raise ?v = ?rhs |- _ =>
             lazymatch rhs with
             | Ok _ => fail
             | Raise _ => fail
             | _ => rewrite <- H in *
             end
         end;
  try discriminate.

(** Decides how each [with] block was left, where a later step depends
    on it. *)
Ltac leave_cases :=
  repeat match goal with
         | H : match ?x with Ok _ => _ | Raise _ => _ end = _ |- _ =>
             destruct x; try discriminate H
         | H : _ = match ?x with Ok _ => _ | Raise _ => _ end |- _ =>
             destruct x; try discriminate H
         end.

(** Splits a membership hypothesis over an explicit trace. *)
Ltac in_cases H :=
  cbn [app In] in H;
  repeat (destruct H as [H|H]; [try discriminate H|]);
  try contradiction.

(** Proves membership in an explicit trace. *)
Ltac in_trace := cbn [app In]; repeat first [left; reflexivity | right].

(** ** The text-to-image flow *)

Module tti_facts.
Import task_tti.

Lemma save_one_emits_no_get_completion n idx a :
  emits not_get_completion (save_one n idx a).
Proof. unfold save_one. destruct (truthy (url a)); emits_tac. Qed.

Lemma handle_response_emits_no_get_completion response :
  emits not_get_completion (handle_response response).
Proof.
  unfold handle_response.
  destruct (resp_custom_content response) as [cc|]; [destruct (attachments cc)|];
    emits_tac.
  - unfold print_attachment; emits_tac.
  - unfold _save_images; emits_tac. apply save_one_emits_no_get_completion.
Qed.

(** The only gateway call of [start] is the one it makes right before
    handling the answer. *)
Lemma start_get_completion_inv env h msgs cf r :
  In (EvGetCompletion msgs cf r) (snd (start env h)) ->
  msgs = [PlainMsg (mkMessage USER "Sunny day on Bali" None)] /\
  cf = Some custom_fields /\
  exists pre,
    Forall print_or_client pre /\
    forall response, r = Ok response ->
      exists h',
        start env h =
        (fst (handle_response response env h'),
         pre ++ [EvGetCompletion msgs cf r] ++ snd (handle_response response env h')).
Proof.
  destruct (start env h) as [res t] eqn:Hrun. cbn [snd]. intros Hin.
  unfold start in Hrun. run_inv Hrun; subst; try discriminate.
  - in_cases Hin.
  - in_cases Hin. injection Hin as <- <- <-.
    split; [reflexivity|]. split; [reflexivity|].
    exists []. split; [constructor|intros response [=]].
  - in_cases Hin.
    + injection Hin as <- <- <-.
      split; [reflexivity|]. split; [reflexivity|].
      eexists (_ :: _ :: _ :: _ :: _ :: _ :: _ :: _ :: _ :: _ :: _ :: [_]).
      split; [|intros response [= <-]; eexists; rewrite Hk1; reflexivity].
      repeat constructor.
    + exfalso.
      match goal with
      | Hh : handle_response ?a env ?h' = _ |- _ =>
          pose proof (emits_In _ _ env h' (EvGetCompletion msgs cf r)
                        (handle_response_emits_no_get_completion a)) as Hno;
          rewrite Hh in Hno; exact (Hno Hin)
      end.
Qed.
(** When the client can be constructed, the gateway call is made. *)
Lemma start_calls_gateway env h e d k :
  In (EvModelClient e d k (Ok tt)) (snd (start env h)) ->
  exists r, In (EvGetCompletion [PlainMsg (mkMessage USER "Sunny day on Bali" None)]
                                (Some custom_fields) r) (snd (start env h)).
Proof.
  destruct (start env h) as [res t] eqn:Hrun. cbn [snd]. intros Hin.
  unfold start in Hrun. run_inv Hrun; subst; try discriminate.
  - in_cases Hin.
  - eexists. in_trace.
  - eexists. in_trace.
Qed.

(** C1. In the text-to-image flow the custom fields reach
    [get_completion] verbatim: every call the flow makes carries exactly
    the mapping [{"size": "1024x1024", "quality": "hd", "style": "vivid"}],
    keys and values as the caller built them and in the caller's order. *)
Theorem tti_custom_fields_verbatim env h msgs cf r :
  In (EvGetCompletion msgs cf r) (snd (start env h)) ->
  cf = Some custom_fields /\
  custom_fields = [("size", "1024x1024"); ("quality", "hd"); ("style", "vivid")].
Proof.
  intros Hin. apply start_get_completion_inv in Hin as (_ & -> & _).
  split; reflexivity.
Qed.

Lemma tti_custom_fields_verbatim_witness :
  In (EvGetCompletion [PlainMsg (mkMessage USER "Sunny day on Bali" None)]
        (Some [("size", "1024x1024"); ("quality", "hd"); ("style", "vivid")])
        (Ok no_attachments))
     (snd (start (env_answering no_attachments) [])) /\
  (Some [("size", "1024x1024"); ("quality", "hd"); ("style", "vivid")]
     = Some custom_fields /\
   custom_fields = [("size", "1024x1024"); ("quality", "hd"); ("style", "vivid")]).
Proof.
  split.
  - vm_compute. in_trace.
  - apply (tti_custom_fields_verbatim (env_answering no_attachments) []
             [PlainMsg (mkMessage USER "Sunny day on Bali" None)] _ (Ok no_attachments)).
    vm_compute. in_trace.
Defined.

(** C4. Whatever [get_completion] returned, if the response has no
    [custom_content] or an empty attachment list, [start] returns
    normally: it prints the response content (present or not), ends with
    the warning, and touches neither the store nor the file system. *)
Theorem tti_start_tolerates_missing_images env h msgs cf response :
  In (EvGetCompletion msgs cf (Ok response)) (snd (start env h)) ->
  (resp_custom_content response = None \/
   exists cc, resp_custom_content response = Some cc /\ attachments cc = []) ->
  fst (start env h) = Ok tt /\
  In (EvPrint (nl +:+ "Response content: " +:+ str_opt (resp_content response) +:+ nl))
     (snd (start env h)) /\
  last (snd (start env h)) = Some (EvPrint warning) /\
  Forall (fun e => download_event e = false) (snd (start env h)).
Proof.
  intros Hin Hempty.
  apply start_get_completion_inv in Hin as (-> & -> & pre & Hpre & Hrun).
  destruct (Hrun response eq_refl) as (h' & ->). clear Hrun. cbn [fst snd].
  assert (handle_response response env h' =
          (Ok tt, [EvPrint (nl +:+ banner); EvPrint "Image generation completed!";
                   EvPrint banner;
                   EvPrint (nl +:+ "Response content: " +:+
                            str_opt (resp_content response) +:+ nl);
                   EvPrint warning])) as ->.
  { unfold handle_response.
    destruct Hempty as [-> | (cc & -> & ->)]; reflexivity. }
  cbn [fst snd]. split; [reflexivity|]. split; [|split].
  - apply in_or_app. right. in_trace.
  - rewrite !last_app. reflexivity.
  - apply Forall_app. split.
    + eapply Forall_impl; [exact Hpre|]. intros [] Hx; try destruct Hx; reflexivity.
    + repeat constructor.
Qed.

Lemma tti_start_tolerates_missing_images_witness :
  In (EvGetCompletion [PlainMsg (mkMessage USER "Sunny day on Bali" None)]
        (Some custom_fields) (Ok text_only))
     (snd (start (env_answering text_only) [])) /\
  (resp_custom_content text_only = None \/
   exists cc, resp_custom_content text_only = Some cc /\ attachments cc = []) /\
  fst (start (env_answering text_only) []) = Ok tt /\
  In (EvPrint (nl +:+ "Response content: " +:+ str_opt (resp_content text_only) +:+ nl))
     (snd (start (env_answering text_only) [])) /\
  last (snd (start (env_answering text_only) [])) = Some (EvPrint warning) /\
  Forall (fun e => download_event e = false) (snd (start (env_answering text_only) [])).
Proof.
  assert (In (EvGetCompletion [PlainMsg (mkMessage USER "Sunny day on Bali" None)]
                (Some custom_fields) (Ok text_only))
             (snd (start (env_answering text_only) []))) as Hin
    by (vm_compute; in_trace).
  assert (resp_custom_content text_only = None \/
          exists cc, resp_custom_content text_only = Some cc /\ attachments cc = [])
    as Hempty by (left; reflexivity).
  split; [exact Hin|]. split; [exact Hempty|].
  exact (tti_start_tolerates_missing_images _ _ _ _ _ Hin Hempty).
Defined.

Example start_with_empty_attachment_list :
  start (env_answering no_attachments) [] =
  (Ok tt,
   [EvPrint (nl +:+ banner); EvPrint "Text-to-Image Generation Task";
    EvPrint (banner +:+ nl); EvPrint "Using model: dall-e-3";
    EvPrint "Note: If this model doesn't work, try these alternatives:";
    EvPrint "  - dalle-3"; EvPrint "  - dall-e"; EvPrint "  - imagegeneration";
    EvPrint ("Or check available models at: https://ai-proxy.lab.epam.com/openai/models" +:+ nl);
    EvModelClient "https://dial.example.com/openai/deployments/{model}/chat/completions"
                  "dall-e-3" "secret" (Ok tt);
    EvPrint ("Generating image for prompt: 'Sunny day on Bali'" +:+ nl);
    EvPrint ("Sending request to image generation model..." +:+ nl);
    EvGetCompletion [PlainMsg (mkMessage USER "Sunny day on Bali" None)]
                    (Some custom_fields) (Ok no_attachments);
    EvPrint (nl +:+ banner); EvPrint "Image generation completed!"; EvPrint banner;
    EvPrint (nl +:+ "Response content: None" +:+ nl);
    EvPrint warning]).
Proof. reflexivity. Qed.

End tti_facts.

(** ** Strings: decimal numerals and file names *)

Lemma list_ascii_app s1 s2 :
  list_ascii_of_string (s1 +:+ s2) = list_ascii_of_string s1 ++ list_ascii_of_string s2.
Proof. induction s1 as [|c s1 IH]; simpl; [reflexivity | by rewrite IH]. Qed.

Lemma list_ascii_inj s1 s2 :
  list_ascii_of_string s1 = list_ascii_of_string s2 -> s1 = s2.
Proof.
  intros H. rewrite <- (string_of_list_ascii_of_string s1), H.
  apply string_of_list_ascii_of_string.
Qed.

Lemma pretty_N_char_digit x : is_digit (pretty_N_char x).
Proof.
  unfold is_digit, pretty_N_char. repeat case_match; eexists; reflexivity.
Qed.

Lemma pretty_N_go_digits x s :
  Forall is_digit (list_ascii_of_string s) ->
  Forall is_digit (list_ascii_of_string (pretty_N_go x s)).
Proof.
  revert s. induction (N.lt_wf_0 x) as [x _ IH]; intros s Hs.
  destruct (decide (x = 0)%N) as [->|Hx]; [exact Hs|].
  rewrite pretty_N_go_step by lia.
  apply IH; [apply N.div_lt; lia|].
  simpl. constructor; [apply pretty_N_char_digit | exact Hs].
Qed.

Lemma str_int_digits n : Forall is_digit (list_ascii_of_string (str_int n)).
Proof.
  unfold str_int, pretty, pretty_nat, pretty, pretty_N.
  case_decide.
  - repeat constructor. eexists; reflexivity.
  - apply pretty_N_go_digits. constructor.
Qed.

Lemma str_int_inj n m : str_int n = str_int m -> n = m.
Proof. apply pretty_nat_inj. Qed.

(** Two lists that agree after a separator which occurs in neither tail
    have the same tail. *)
Lemma app_sep_inj {A} (x : A) l1 l2 d1 d2 :
  ~ In x d1 -> ~ In x d2 -> l1 ++ x :: d1 = l2 ++ x :: d2 -> d1 = d2.
Proof.
  revert l2. induction l1 as [|a l1 IH]; intros [|b l2] H1 H2 Heq; simpl in Heq.
  - congruence.
  - injection Heq as <- ->. exfalso. apply H1. apply in_or_app. right. left. reflexivity.
  - injection Heq as -> <-. exfalso. apply H2. apply in_or_app. right. left. reflexivity.
  - injection Heq as _ Heq. eauto.
Qed.

Lemma digits_no_underscore l : Forall is_digit l -> ~ In underscore l.
Proof.
  intros Hd Hin. apply (proj1 (List.Forall_forall _ _) Hd) in Hin.
  destruct Hin as [n Hn]. discriminate Hn.
Qed.

(** File names built for different positions differ, whatever the two
    timestamps are. *)
Lemma file_name_of_inj ts1 ts2 i j :
  task_tti.file_name_of ts1 i = task_tti.file_name_of ts2 j -> i = j.
Proof.
  unfold task_tti.file_name_of. intros H.
  apply String.app_inj in H.
  apply (f_equal list_ascii_of_string) in H.
  rewrite !list_ascii_app in H.
  change (list_ascii_of_string "_") with [underscore] in H.
  cbn [app] in H.
  apply app_sep_inj in H.
  - apply app_inv_tail in H. apply list_ascii_inj, str_int_inj in H. lia.
  - intros Hin. apply in_app_or in Hin as [Hin|Hin].
    + exact (digits_no_underscore _ (str_int_digits _) Hin).
    + cbn in Hin. intuition discriminate.
  - intros Hin. apply in_app_or in Hin as [Hin|Hin].
    + exact (digits_no_underscore _ (str_int_digits _) Hin).
    + cbn in Hin. intuition discriminate.
Qed.

(** ** Saving the generated images *)

Module save_images_facts.
Import task_tti.

Lemma truthy_inv o : truthy o = true -> exists u, o = Some u /\ u <> "".
Proof. destruct o as [[|c s]|]; try discriminate. intros _. eexists. split; [reflexivity|discriminate]. Qed.

Lemma written_files_app t1 t2 :
  written_files (t1 ++ t2) = written_files t1 ++ written_files t2.
Proof. apply omap_app. Qed.

(** One turn of the loop. *)
Lemma save_one_spec n idx a env h r t :
  save_one n idx a env h = (r, t) ->
  (forall name data rw, In (EvWrite name data rw) t ->
     write_explained idx [a] t name data rw) /\
  (written_files t = [] \/
   exists ts, written_files t = [file_name_of ts idx]) /\
  (r = Ok tt -> length (written_files t) = if has_url a then 1 else 0).
Proof.
  unfold save_one, has_url. destruct (truthy (url a)) eqn:Hu; intros Hrun.
  - apply truthy_inv in Hu as (u & Hu & Hne). rewrite Hu in Hrun.
    cbn [default from_option id] in Hrun.
    run_inv Hrun; subst; try discriminate; cbn [app];
      repeat match goal with x : unit |- _ => destruct x end.
    all: (split; [intros name data rw Hin; in_cases Hin|split]).
    all: try solve [left; reflexivity].
    all: try solve [intros [=]].
    all: try solve [right; eexists; reflexivity].
    all: try solve [intros _; reflexivity].
    all: injection Hin as <- <- <-; exists 0, a, u; eexists; eexists [_]; eexists;
      split; [reflexivity|]; split; [exact Hu|]; split; [exact Hne|];
      rewrite Nat.add_0_r; split; reflexivity.
  - run_inv Hrun. subst. split; [intros ? ? ? []|]. split; [left; reflexivity|].
    intros _. reflexivity.
Qed.

(** The whole loop, from position [idx] on. *)
Lemma save_loop_spec n l : forall idx env h r t,
  for_enumerate idx l (save_one n) env h = (r, t) ->
  (forall name data rw, In (EvWrite name data rw) t ->
     write_explained idx l t name data rw) /\
  Forall (named_from idx) (written_files t) /\
  NoDup (written_files t) /\
  (r = Ok tt -> length (written_files t) = length (List.filter has_url l)).
Proof.
  induction l as [|a l IH]; intros idx env h r t Hrun; cbn [for_enumerate] in Hrun.
  - run_inv Hrun. subst. split; [intros ? ? ? []|].
    split; [constructor|]. split; [constructor|]. reflexivity.
  - apply bind_inv in Hrun as [(e & Hone & ->)|(x & t1 & t2 & Hone & Hrest & ->)].
    + apply save_one_spec in Hone as (Hex & Hfiles & _).
      split; [|split; [|split]].
      * intros name data rw Hin.
        destruct (Hex name data rw Hin) as (i & a' & u & ts & pre & post & Hi & Hrest).
        exists i, a', u, ts, pre, post. split; [|exact Hrest].
        destruct i; [exact Hi | destruct i; discriminate Hi].
      * destruct Hfiles as [->|(ts & ->)]; repeat constructor.
        exists ts, idx. split; [lia|reflexivity].
      * destruct Hfiles as [->|(ts & ->)]; repeat constructor. intros Hin; inversion Hin.
      * intros [=].
    + apply save_one_spec in Hone as (Hex & Hfiles & Hlen).
      apply IH in Hrest as (IHex & IHnames & IHnodup & IHlen).
      rewrite written_files_app.
      split; [|split; [|split]].
      * intros name data rw Hin. apply in_app_or in Hin as [Hin|Hin].
        -- destruct (Hex name data rw Hin)
             as (i & a' & u & ts & pre & post & Hi & Hu & Hne & Hname & ->).
           exists i, a', u, ts, pre, (post ++ t2).
           split; [destruct i; [exact Hi | destruct i; discriminate Hi]|].
           split; [exact Hu|]. split; [exact Hne|]. split; [exact Hname|].
           rewrite <- !app_assoc. reflexivity.
        -- destruct (IHex name data rw Hin)
             as (i & a' & u & ts & pre & post & Hi & Hu & Hne & Hname & ->).
           exists (S i), a', u, ts, (t1 ++ pre), post.
           split; [exact Hi|]. split; [exact Hu|]. split; [exact Hne|].
           split; [rewrite Hname; f_equal; lia|].
           rewrite <- !app_assoc. reflexivity.
      * apply Forall_app. split.
        -- destruct Hfiles as [->|(ts & ->)]; repeat constructor.
           exists ts, idx. split; [lia|reflexivity].
        -- eapply Forall_impl; [exact IHnames|].
           intros name (ts & j & Hj & ->). exists ts, j. split; [lia|reflexivity].
      * apply NoDup_app. split; [|split; [|exact IHnodup]].
        -- destruct Hfiles as [->|(ts & ->)]; repeat constructor. intros Hin; inversion Hin.
        -- intros name Hin1 Hin2.
           destruct Hfiles as [Hnil|(ts & Hone)]; rewrite ?Hnil, ?Hone in Hin1.
           ++ inversion Hin1.
           ++ apply list_elem_of_singleton in Hin1 as ->.
              apply (proj1 (Forall_forall _ _) IHnames) in Hin2
                as (ts' & j & Hj & Heq).
              apply file_name_of_inj in Heq. lia.
      * intros ->. destruct x. rewrite length_app, (Hlen eq_refl), (IHlen eq_refl).
        cbn [List.filter]. destruct (has_url a); cbn [length]; lia.
Qed.

Lemma save_one_session_neutral n idx a : emits session_neutral (save_one n idx a).
Proof. unfold save_one. destruct (truthy (url a)); emits_tac. Qed.

Lemma writes_app t1 t2 : writes (t1 ++ t2) = writes t1 ++ writes t2.
Proof. apply omap_app. Qed.

Lemma written_files_writes t : written_files t = map fst (writes t).
Proof.
  induction t as [|e t IH]; [reflexivity|].
  destruct e; cbn [written_files writes omap list_omap map fst] in *; try exact IH.
  f_equal. exact IH.
Qed.

Lemma saved_from_app t pre post iu w :
  saved_from t iu w -> saved_from (pre ++ t ++ post) iu w.
Proof.
  intros (ts & rw & p & q & Hname & ->).
  exists ts, rw, (pre ++ p), (q ++ post). split; [exact Hname|].
  rewrite <- !app_assoc. reflexivity.
Qed.

Lemma url_positions_cons idx a l :
  url_positions idx (a :: l) = url_positions idx [a] ++ url_positions (S idx) l.
Proof. cbn [url_positions]. rewrite app_nil_r. reflexivity. Qed.

(** One turn of the loop: what it writes belongs to its attachment. *)
Lemma save_one_saved n idx a env h r t :
  save_one n idx a env h = (r, t) ->
  exists done, done `prefix_of` url_positions idx [a] /\
    Forall2 (saved_from t) done (writes t) /\
    (r = Ok tt -> done = url_positions idx [a]).
Proof.
  unfold save_one. cbn [url_positions]. unfold has_url. rewrite app_nil_r.
  destruct (truthy (url a)) eqn:Hu; intros Hrun.
  - apply truthy_inv in Hu as (u & Hu & Hne). rewrite Hu in Hrun |- *.
    cbn [default from_option id] in Hrun |- *.
    run_inv Hrun; run_simpl; leave_cases; run_simpl; cbn [app writes omap list_omap].
    all: try solve [exists []; split; [apply prefix_nil|]; split; [constructor|discriminate]].
    all: exists [(idx, u)]; (split; [reflexivity|]); (split; [|reflexivity]).
    all: constructor; [|constructor].
    all: do 2 eexists; eexists [_]; eexists; split; reflexivity.
  - run_inv Hrun. subst. exists []. split; [reflexivity|]. split; [constructor|reflexivity].
Qed.

Lemma save_loop_saved n l : forall idx env h r t,
  for_enumerate idx l (save_one n) env h = (r, t) ->
  exists done, done `prefix_of` url_positions idx l /\
    Forall2 (saved_from t) done (writes t) /\
    (r = Ok tt -> done = url_positions idx l).
Proof.
  induction l as [|a l IH]; intros idx env h r t Hrun; cbn [for_enumerate] in Hrun.
  - run_inv Hrun. subst. exists []. split; [reflexivity|]. split; [constructor|reflexivity].
  - rewrite url_positions_cons.
    apply bind_inv in Hrun as [(e & Hone & ->)|(x & t1 & t2 & Hone & Hrest & ->)];
      apply save_one_saved in Hone as (d1 & Hp1 & Hf1 & He1).
    + exists d1. split; [apply prefix_app_r, Hp1|]. split; [exact Hf1|discriminate].
    + apply IH in Hrest as (d2 & Hp2 & Hf2 & He2). destruct x.
      rewrite (He1 eq_refl) in *.
      exists (url_positions idx [a] ++ d2). split; [apply prefix_app, Hp2|].
      rewrite writes_app. split.
      * apply Forall2_app.
        -- eapply Forall2_impl; [exact Hf1|]. intros iu w Hs.
           apply (saved_from_app t1 [] t2) in Hs. exact Hs.
        -- eapply Forall2_impl; [exact Hf2|]. intros iu w Hs.
           apply (saved_from_app t2 t1 []) in Hs. rewrite app_nil_r in Hs. exact Hs.
      * intros Hr. rewrite (He2 Hr). reflexivity.
Qed.

(** One turn of the loop in which no call failed. *)
Lemma save_one_clean n idx a env h r t :
  save_one n idx a env h = (r, t) -> existsb failed t = false ->
  r = Ok tt /\
  exists blocks, Forall2 (saved_block n) (url_positions idx [a]) blocks /\ t = concat blocks.
Proof.
  unfold save_one. cbn [url_positions]. unfold has_url. rewrite app_nil_r.
  destruct (truthy (url a)) eqn:Hu; intros Hrun.
  - apply truthy_inv in Hu as (u & Hu & Hne). rewrite Hu in Hrun |- *.
    cbn [default from_option id] in Hrun |- *.
    run_inv Hrun; run_simpl; leave_cases; run_simpl; cbn [app existsb failed orb];
      intros Hclean; try discriminate Hclean.
    all: repeat match type of Hclean with
           | context [match ?x with Ok _ => _ | Raise _ => _ end] =>
               destruct x; cbn [orb] in Hclean
           end; try discriminate Hclean.
    all: split; [reflexivity|].
    all: eexists [_]; split; [constructor; [|constructor]; do 2 eexists; reflexivity|].
    all: reflexivity.
  - run_inv Hrun. subst. intros _. split; [reflexivity|].
    exists []. split; [constructor|reflexivity].
Qed.

Lemma save_loop_clean n l : forall idx env h r t,
  for_enumerate idx l (save_one n) env h = (r, t) -> existsb failed t = false ->
  r = Ok tt /\
  exists blocks, Forall2 (saved_block n) (url_positions idx l) blocks /\ t = concat blocks.
Proof.
  induction l as [|a l IH]; intros idx env h r t Hrun Hclean; cbn [for_enumerate] in Hrun.
  - run_inv Hrun. subst. split; [reflexivity|]. exists []. split; [constructor|reflexivity].
  - rewrite url_positions_cons.
    apply bind_inv in Hrun as [(e & Hone & ->)|(x & t1 & t2 & Hone & Hrest & ->)].
    + apply save_one_clean in Hone as ([=] & _); exact Hclean.
    + rewrite existsb_app in Hclean. apply orb_false_elim in Hclean as [Hc1 Hc2].
      apply save_one_clean in Hone as (_ & b1 & Hb1 & ->); [|exact Hc1].
      apply IH in Hrest as (-> & b2 & Hb2 & ->); [|exact Hc2].
      split; [reflexivity|]. exists (b1 ++ b2). split; [apply Forall2_app; assumption|].
      rewrite concat_app. reflexivity.
Qed.

(** C9. Whatever the environment answers, [_save_images] writes a file
    only for an attachment with a non-empty url and writes to it the
    bytes [get_file] has just returned for that url; the files are
    pairwise distinct; the writes, in order, save an initial segment of
    the url-bearing attachments, one write for each, and all of them when
    the function returns.  The function raises only when one of its calls
    failed: an attachment without url is passed over silently, and when no
    call failed the trace is the session around one block of download,
    write and close for each url-bearing attachment, and nothing else. *)
Theorem save_images_writes_downloaded_bytes env h atts :
  (forall name data rw,
      In (EvWrite name data rw) (snd (_save_images atts env h)) ->
      write_explained 0 atts (snd (_save_images atts env h)) name data rw) /\
  NoDup (written_files (snd (_save_images atts env h))) /\
  (exists done,
      done `prefix_of` url_positions 0 atts /\
      Forall2 (saved_from (snd (_save_images atts env h))) done
              (writes (snd (_save_images atts env h))) /\
      (fst (_save_images atts env h) = Ok tt -> done = url_positions 0 atts)) /\
  (fst (_save_images atts env h) = Ok tt ->
   length (written_files (snd (_save_images atts env h)))
   = length (List.filter has_url atts)) /\
  (existsb failed (snd (_save_images atts env h)) = false ->
   fst (_save_images atts env h) = Ok tt /\
   exists blocks,
     Forall2 (saved_block (length atts)) (url_positions 0 atts) blocks /\
     snd (_save_images atts env h)
     = EvBucketClient (API_KEY env) (DIAL_URL env) (Ok tt) :: EvAEnter (Ok tt)
         :: concat blocks ++ [EvAExit (Ok tt)]).
Proof.
  destruct (_save_images atts env h) as [r t] eqn:Hrun. cbn [fst snd].
  unfold _save_images in Hrun. run_inv Hrun; subst; try discriminate; cbn [app].
  - split; [intros ? ? ? Hin; in_cases Hin|]. split; [constructor|].
    split; [exists []; split; [apply prefix_nil|]; split; [constructor|discriminate]|].
    split; [intros [=]|]. intros Hc. exfalso. cbn [existsb failed orb] in Hc.
    discriminate Hc.
  - split; [intros ? ? ? Hin; in_cases Hin|]. split; [constructor|].
    split; [exists []; split; [apply prefix_nil|]; split; [constructor|discriminate]|].
    split; [intros [=]|]. intros Hc. exfalso. cbn [existsb failed orb] in Hc.
    discriminate Hc.
  - match goal with
    | Hb : for_enumerate _ _ _ _ _ = _ |- _ =>
        pose proof (save_loop_saved _ _ _ _ _ _ _ Hb) as (done & Hpre & Hsaved & Hall);
        pose proof (save_loop_clean _ _ _ _ _ _ _ Hb) as Hclean;
        apply save_loop_spec in Hb as (Hex & _ & Hnodup & Hlen)
    end.
    assert (forall pre t2 post,
               written_files (pre :: EvAEnter (Ok tt) :: t2 ++ [EvAExit post])
               = match pre with EvWrite p _ _ => [p] | _ => [] end ++ written_files t2)
      as Hw.
    { intros pre t2 post. change (pre :: EvAEnter (Ok tt) :: t2 ++ [EvAExit post])
        with ([pre; EvAEnter (Ok tt)] ++ t2 ++ [EvAExit post]).
      rewrite !written_files_app. cbn. destruct pre; cbn; rewrite ?app_nil_r; reflexivity. }
    repeat match goal with x : unit |- _ => destruct x end.
    rewrite Hw. cbn [app].
    assert (forall rb x : Result unit,
               match x with Raise e' => Raise e' | Ok _ => rb end = Ok tt -> rb = Ok tt)
      as Hres by (intros rb [[]|]; [auto|discriminate]).
    split; [|split; [exact Hnodup|split; [|split]]].
    + intros name data rw Hin. in_cases Hin.
      apply in_app_or in Hin as [Hin|Hin]; [|in_cases Hin].
      destruct (Hex name data rw Hin)
        as (i & a' & u & ts & pre & post & Hi & Hu & Hne & Hname & ->).
      exists i, a', u, ts. eexists (_ :: _ :: pre), (post ++ [_]).
      split; [exact Hi|]. split; [exact Hu|]. split; [exact Hne|].
      split; [exact Hname|]. cbn [app]. rewrite <- !app_assoc. reflexivity.
    + exists done. split; [exact Hpre|]. split.
      * match goal with
        | |- Forall2 _ _ (writes (?e1 :: ?e2 :: ?t2 ++ [?e3])) =>
            change (writes (e1 :: e2 :: t2 ++ [e3])) with (writes (t2 ++ [e3]));
            rewrite writes_app; cbn [writes omap list_omap]; rewrite app_nil_r;
            eapply Forall2_impl; [exact Hsaved|];
            intros iu w Hs; apply (saved_from_app t2 [e1; e2] [e3]) in Hs; exact Hs
        end.
      * intros Hr. apply Hall, (Hres _ _ Hr).
    + intros Hr. apply Hlen, (Hres _ _ Hr).
    + intros Hc. cbn [existsb failed orb] in Hc. rewrite existsb_app in Hc.
      apply orb_false_elim in Hc as [Hc Hx]. cbn [existsb] in Hx.
      destruct (Hclean Hc) as (-> & blocks & Hb & ->).
      match type of Hx with context [EvAExit ?x] => destruct x as [[]|]; [|discriminate Hx] end.
      split; [reflexivity|]. exists blocks. split; [exact Hb|reflexivity].
Qed.

Lemma save_images_writes_downloaded_bytes_witness :
  existsb failed (snd (_save_images [generated_1; pending_2; generated_3]
                                    (env_answering text_only) [])) = false /\
  fst (_save_images [generated_1; pending_2; generated_3] (env_answering text_only) [])
  = Ok tt /\
  exists blocks,
    Forall2 (saved_block 3)
            [(0, "https://fake-bucket.example.com/files/image1.png");
             (2, "https://fake-bucket.example.com/files/image3.png")] blocks /\
    snd (_save_images [generated_1; pending_2; generated_3] (env_answering text_only) [])
    = EvBucketClient "secret" "https://dial.example.com" (Ok tt) :: EvAEnter (Ok tt)
        :: concat blocks ++ [EvAExit (Ok tt)].
Proof.
  split; [reflexivity|].
  exact (proj2 (proj2 (proj2 (proj2
           (save_images_writes_downloaded_bytes
              (env_answering text_only) [] [generated_1; pending_2; generated_3]))))
           eq_refl).
Defined.

Example save_three_images :
  written_files (snd (_save_images [generated_1; pending_2; generated_3]
                                   (env_answering text_only) []))
  = ["generated_image_20240115_103045_1.png"; "generated_image_20240115_103045_3.png"].
Proof. reflexivity. Qed.

Example save_images_download_refused :
  _save_images [generated_1; pending_2; generated_3] env_download_fails [] =
  (Raise (PyExn "HTTPStatusError" "404"),
   [EvBucketClient "secret" "https://dial.example.com" (Ok tt);
    EvAEnter (Ok tt);
    EvPrint (nl +:+ "Downloading image 1/3...");
    EvGetFile "https://fake-bucket.example.com/files/image1.png"
              (Raise (PyExn "HTTPStatusError" "404"));
    EvAExit (Ok tt)]).
Proof. reflexivity. Qed.

Example save_images_close_refused :
  _save_images [generated_1; pending_2; generated_3] env_close_fails [] =
  (Raise (PyExn "OSError" "No space left on device"),
   [EvBucketClient "secret" "https://dial.example.com" (Ok tt);
    EvAEnter (Ok tt);
    EvPrint (nl +:+ "Downloading image 1/3...");
    EvGetFile "https://fake-bucket.example.com/files/image1.png" (Ok png_header);
    EvNow (mkDateTime 2024 1 15 10 30 45);
    EvOpen "generated_image_20240115_103045_1.png" "wb" (Ok tt);
    EvWrite "generated_image_20240115_103045_1.png" png_header (Ok tt);
    EvClose "generated_image_20240115_103045_1.png"
            (Raise (PyExn "OSError" "No space left on device"));
    EvAExit (Ok tt)]).
Proof. reflexivity. Qed.

End save_images_facts.

(** ** The store session *)

Lemma session_scan_app t1 : forall n t2,
  session_scan n (t1 ++ t2) =
  match session_scan n t1 with
  | Some n' => session_scan n' t2
  | None => None
  end.
Proof.
  induction t1 as [|e t1 IH]; intros n t2; [reflexivity|].
  destruct e as [| | | |[]| | | | | | | |]; cbn [app session_scan]; try apply IH;
    destruct n; try reflexivity; apply IH.
Qed.

Lemma session_scan_neutral t : forall n,
  Forall session_neutral t ->
  session_scan (S n) t = Some (S n).
Proof.
  induction t as [|e t IH]; intros n Ht; [reflexivity|].
  apply Forall_cons in Ht as [He Ht].
  destruct e as [| | | |[]| | | | | | | |]; cbn [session_scan]; try contradiction; auto.
Qed.

(** C6. On every path through [_put_image] and [_save_images], whether
    the calls made inside succeed or raise, the session that was acquired
    is released before the function exits: along the emitted trace every
    store call happens inside the session and no session is left open. *)
Theorem store_session_always_released env h atts :
  session_scan 0 (snd (task_dial_itt._put_image env h)) = Some 0 /\
  session_scan 0 (snd (task_tti._save_images atts env h)) = Some 0.
Proof.
  split.
  - destruct (task_dial_itt._put_image env h) as [r t] eqn:Hrun. cbn [snd].
    unfold task_dial_itt._put_image in Hrun.
    run_inv Hrun; subst; try discriminate; reflexivity.
  - destruct (task_tti._save_images atts env h) as [r t] eqn:Hrun. cbn [snd].
    unfold task_tti._save_images in Hrun.
    run_inv Hrun; subst; try discriminate; try reflexivity.
    match goal with
    | Hb : for_enumerate _ _ _ _ ?h' = (_, ?t2) |- _ =>
        pose proof (emits_for_enumerate session_neutral _ atts
                      (save_images_facts.save_one_session_neutral (length atts)) 0 env h')
          as Hn; rewrite Hb in Hn; cbn [snd] in Hn
    end.
    cbn [app session_scan]. rewrite session_scan_app, session_scan_neutral by exact Hn.
    reflexivity.
Qed.

Example put_image_releases_after_refused_upload :
  task_dial_itt._put_image env_download_fails [] =
  (Raise (PyExn "HTTPStatusError" "403"),
   [EvBucketClient "secret" "https://dial.example.com" (Ok tt);
    EvAEnter (Ok tt);
    EvOpen "/repo/dialx-banner.png" "rb" (Ok tt);
    EvRead "/repo/dialx-banner.png" (Ok png_header);
    EvPutFile "dialx-banner.png" "image/png" png_header
              (Raise (PyExn "HTTPStatusError" "403"));
    EvClose "/repo/dialx-banner.png" (Ok tt);
    EvAExit (Ok tt)]).
Proof. reflexivity. Qed.

(** ** The upload flow *)

Module dial_itt_facts.
Import task_dial_itt.

Lemma put_image_emits_no_get_completion : emits not_get_completion _put_image.
Proof. unfold _put_image. emits_tac. Qed.

(** A returned attachment comes from a successful upload of the bytes
    read from the image file. *)
Lemma put_image_returns_after_upload env h a :
  fst (_put_image env h) = Ok a ->
  exists path data resp,
    In (EvRead path (Ok data)) (snd (_put_image env h)) /\
    In (EvPutFile "dialx-banner.png" "image/png" data (Ok resp)) (snd (_put_image env h)).
Proof.
  destruct (_put_image env h) as [r t] eqn:Hrun. cbn [fst snd]. intros ->.
  unfold _put_image in Hrun. run_inv Hrun; subst; try discriminate.
  all: repeat match goal with
         | H : match ?x with Ok _ => _ | Raise _ => _ end = _ |- _ =>
             destruct x; try discriminate H
         | H : _ = match ?x with Ok _ => _ | Raise _ => _ end |- _ =>
             destruct x; try discriminate H
         end.
  do 3 eexists. split; in_trace.
Qed.

(** C2. Whenever the store confirms an upload of a payload named [n]
    with MIME type [m], the attachment [_put_image] returns has title
    [n], type [m] and the [url] entry of the store's answer; in this
    flow [n] is "dialx-banner.png" and [m] is "image/png". *)
Theorem put_image_attachment_fields env h n m data resp a :
  In (EvPutFile n m data (Ok resp)) (snd (_put_image env h)) ->
  fst (_put_image env h) = Ok a ->
  title a = n /\ type a = m /\ url a = resp !! "url" /\
  n = "dialx-banner.png" /\ m = "image/png".
Proof.
  destruct (_put_image env h) as [r t] eqn:Hrun. cbn [fst snd]. intros Hin ->.
  unfold _put_image in Hrun. run_inv Hrun; subst; try discriminate.
  all: repeat match goal with
         | H : match ?x with Ok _ => _ | Raise _ => _ end = _ |- _ =>
             destruct x; try discriminate H
         | H : _ = match ?x with Ok _ => _ | Raise _ => _ end |- _ =>
             destruct x; try discriminate H
         end.
  in_cases Hin.
  injection Hin as <- <- <- <-.
  match goal with H : Ok a = Ok _ |- _ => injection H as -> end.
  repeat split; reflexivity.
Qed.

Lemma put_image_attachment_fields_witness :
  In (EvPutFile "dialx-banner.png" "image/png" png_header
                (Ok {[ "url" := "files/bucket/dialx-banner.png" ]}))
     (snd (_put_image (env_answering text_only) [])) /\
  fst (_put_image (env_answering text_only) [])
    = Ok (mkAttachment "dialx-banner.png" (Some "files/bucket/dialx-banner.png") "image/png") /\
  (title (mkAttachment "dialx-banner.png" (Some "files/bucket/dialx-banner.png") "image/png")
     = "dialx-banner.png" /\
   type (mkAttachment "dialx-banner.png" (Some "files/bucket/dialx-banner.png") "image/png")
     = "image/png" /\
   url (mkAttachment "dialx-banner.png" (Some "files/bucket/dialx-banner.png") "image/png")
     = ({[ "url" := "files/bucket/dialx-banner.png" ]} : UploadResponse) !! "url" /\
   "dialx-banner.png" = "dialx-banner.png" /\ "image/png" = "image/png").
Proof.
  assert (In (EvPutFile "dialx-banner.png" "image/png" png_header
                (Ok {[ "url" := "files/bucket/dialx-banner.png" ]}))
             (snd (_put_image (env_answering text_only) []))) as Hin
    by (cbn; in_trace).
  assert (fst (_put_image (env_answering text_only) [])
          = Ok (mkAttachment "dialx-banner.png"
                             (Some "files/bucket/dialx-banner.png") "image/png")) as Hres
    by reflexivity.
  split; [exact Hin|]. split; [exact Hres|].
  exact (put_image_attachment_fields _ _ _ _ _ _ _ Hin Hres).
Defined.

(** The message [start] sends carries the prompt as a plain string and
    the uploaded attachment beside it. *)
Lemma dial_start_get_completion_inv env h msgs cf r :
  In (EvGetCompletion msgs cf r) (snd (start env h)) ->
  exists a,
    msgs = [PlainMsg (mkMessage USER "What do you see on this picture?"
                                (Some (mkCustomContent [a])))] /\
    cf = None.
Proof.
  destruct (start env h) as [res t] eqn:Hrun. cbn [snd]. intros Hin.
  unfold start in Hrun. run_inv Hrun; subst; try discriminate.
  all: match goal with
       | Hp : _put_image ?e ?h' = (_, ?t1), Hi : In ?ev _ |- _ =>
           pose proof (emits_In _ _ e h' ev
                         put_image_emits_no_get_completion) as Hno;
           rewrite Hp in Hno; cbn [snd] in Hno
       | _ => idtac
       end.
  all: cbn [app In] in Hin.
  all: repeat match type of Hin with
         | _ \/ _ => destruct Hin as [Hin|Hin]; [try discriminate Hin|]
         | In _ (_ ++ _) => apply in_app_or in Hin as [Hin|Hin]; [destruct (Hno Hin)|]
         | In _ (_ :: _) => cbn [In] in Hin
         | In _ [] => destruct Hin
         | False => destruct Hin
         end.
  all: try (destruct (Hno Hin)).
  all: injection Hin as <- <- <-; eexists; split; reflexivity.
Qed.
End dial_itt_facts.

(** ** The base64 encoder *)

(** Induction over a list three elements at a time, as the encoder
    consumes it. *)
Lemma list_ind3 {A} (P : list A -> Prop) :
  P [] -> (forall a, P [a]) -> (forall a b, P [a; b]) ->
  (forall a b c l, P l -> P (a :: b :: c :: l)) ->
  forall l, P l.
Proof.
  intros H0 H1 H2 H3 l.
  enough (P l /\ (forall a, P (a :: l)) /\ (forall a b, P (a :: b :: l))) by tauto.
  induction l as [|x l (IH0 & IH1 & IH2)].
  - auto.
  - split; [apply IH1|]. split; [intros a; apply IH2|]. intros a b. apply H3, IH0.
Qed.

(** Four characters for every three bytes, the last group padded. *)
Lemma b64encode_length s :
  length (b64encode s) = 4 * ((length s + 2) / 3).
Proof.
  induction s as [|a|a b|a b c l IH] using list_ind3; try reflexivity.
  cbn [b64encode length]. rewrite IH.
  replace (S (S (S (length l))) + 2) with ((length l + 2) + 1 * 3) by lia.
  rewrite Nat.div_add by lia. lia.
Qed.

Lemma string_get_In s : forall n c,
  String.get n s = Some c -> In c (list_ascii_of_string s).
Proof.
  induction s as [|x s IH]; intros [|n] c Hget; cbn in Hget; try discriminate.
  - injection Hget as ->. left. reflexivity.
  - right. eapply IH, Hget.
Qed.

Lemma b64_char_ascii i : (Byte.to_N (b64_char i) < 128)%N.
Proof.
  unfold b64_char. destruct (String.get (N.to_nat i) b64_alphabet) as [c|] eqn:Hget.
  - apply string_get_In in Hget. revert c Hget. apply List.Forall_forall.
    unfold b64_alphabet. cbn [list_ascii_of_string]. repeat constructor.
  - reflexivity.
Qed.

(** The encoder's output is ASCII, which is why decoding it as UTF-8 is
    byte-for-byte. *)
Lemma b64encode_ascii s :
  Forall (fun b => (Byte.to_N b < 128)%N) (b64encode s).
Proof.
  induction s as [|a|a b|a b c l IH] using list_ind3; cbn [b64encode].
  - constructor.
  - repeat constructor; apply b64_char_ascii.
  - repeat constructor; apply b64_char_ascii.
  - repeat (constructor; [apply b64_char_ascii|]). exact IH.
Qed.

(** ** The inline-image flow *)

Module openai_itt_facts.
Import task_openai_itt.

(** What [start] hands to the gateway, in either of its two calls: one
    message of two parts, the first one of the two prompts, the second the
    data URI of the bytes read from the banner file; no custom fields. *)
Lemma openai_start_get_completion_inv env h msgs cf r :
  In (EvGetCompletion msgs cf r) (snd (start env h)) ->
  exists txt data,
    In (EvRead (fspath (truediv (parent (parent (parent (parent (openai_itt_file env)))))
                                "dialx-banner.png")) (Ok data))
       (snd (start env h)) /\
    In txt ["What's in this image? Please describe it in detail.";
            "Describe the color scheme and branding elements in this image."] /\
    cf = None /\
    msgs = [ContentedMsg
              (mkContentedMessage USER
                 [TxtContent txt;
                  ImgContent (mkImgUrl (data_uri (decode_utf8 (b64encode data))))])].
Proof.
  destruct (start env h) as [res t] eqn:Hrun. cbn [snd]. intros Hin.
  unfold start in Hrun. run_inv Hrun; run_simpl; leave_cases; run_simpl.
  all: in_cases Hin.
  all: injection Hin as <- <- <-.
  all: eexists; eexists; (split; [in_trace|]); (split; [|split; reflexivity]);
    in_trace.
Qed.

(** C7. Every message the OpenAI image-to-text flow sends has exactly
    two content parts, in this order: a text part with a non-empty text,
    then an image part whose url is "data:image/png;base64," followed by
    the standard base64 encoding of the bytes read from the image file. *)
Theorem openai_message_parts env h msgs cf r :
  In (EvGetCompletion msgs cf r) (snd (start env h)) ->
  exists txt path data,
    In (EvRead path (Ok data)) (snd (start env h)) /\
    txt <> "" /\
    msgs = [ContentedMsg
              (mkContentedMessage USER
                 [TxtContent txt;
                  ImgContent (mkImgUrl ("data:image/png;base64," +:+
                                        decode_utf8 (b64encode data)))])].
Proof.
  intros Hin.
  apply openai_start_get_completion_inv in Hin as (txt & data & Hread & Htxt & _ & ->).
  exists txt. eexists. exists data. split; [exact Hread|].
  split; [|reflexivity].
  destruct Htxt as [<-|[<-|[]]]; discriminate.
Qed.

Lemma openai_message_parts_witness :
  In (EvGetCompletion
        [ContentedMsg
           (mkContentedMessage USER
              [TxtContent "What's in this image? Please describe it in detail.";
               ImgContent (mkImgUrl (data_uri (decode_utf8 (b64encode png_header))))])]
        None (Ok text_only))
     (snd (start (env_answering text_only) [])) /\
  exists txt path data,
    In (EvRead path (Ok data)) (snd (start (env_answering text_only) [])) /\
    txt <> "" /\
    [ContentedMsg
       (mkContentedMessage USER
          [TxtContent "What's in this image? Please describe it in detail.";
           ImgContent (mkImgUrl (data_uri (decode_utf8 (b64encode png_header))))])]
    = [ContentedMsg
         (mkContentedMessage USER
            [TxtContent txt;
             ImgContent (mkImgUrl ("data:image/png;base64," +:+
                                   decode_utf8 (b64encode data)))])].
Proof.
  assert (In (EvGetCompletion
                [ContentedMsg
                   (mkContentedMessage USER
                      [TxtContent "What's in this image? Please describe it in detail.";
                       ImgContent (mkImgUrl (data_uri (decode_utf8 (b64encode png_header))))])]
                None (Ok text_only))
             (snd (start (env_answering text_only) []))) as Hin
    by (vm_compute; in_trace).
  split; [exact Hin|].
  exact (openai_message_parts _ _ _ _ _ Hin).
Defined.

Example b64_png_header : decode_utf8 (b64encode png_header) = "iVBORw0KGgo=".
Proof. reflexivity. Qed.

Example b64_rfc4648_vectors :
  map (fun s => decode_utf8 (b64encode (list_byte_of_string s)))
      [""; "f"; "fo"; "foo"; "foob"; "fooba"; "foobar"]
  = [""; "Zg=="; "Zm8="; "Zm9v"; "Zm9vYg=="; "Zm9vYmE="; "Zm9vYmFy"].
Proof. reflexivity. Qed.

Example b64_fake_data :
  decode_utf8 (b64encode (list_byte_of_string "fake_data")) = "ZmFrZV9kYXRh".
Proof. reflexivity. Qed.

Example b64_high_bytes :
  decode_utf8 (b64encode [Byte.xff; Byte.xfe; Byte.xfd; Byte.x89]) = "//79iQ==".
Proof. reflexivity. Qed.
End openai_itt_facts.

(** ** All flows: the shape of what is sent, and what an import runs *)

(** C8. Every message a demo flow passes to [get_completion] has a
    content of exactly one shape, a plain string or a non-empty sequence
    of parts; a [custom_content] only ever accompanies a plain string, and
    in the upload flow that string is the prompt as written, beside the
    one uploaded attachment. *)
Theorem demo_messages_content_invariant f env h msgs cf r :
  In (EvGetCompletion msgs cf r) (snd (flow_start f env h)) ->
  Forall (fun m => content_invariant m /\ custom_content_with_plain m) msgs /\
  (f = DialImageToText ->
   exists a, msgs = [PlainMsg (mkMessage USER "What do you see on this picture?"
                                         (Some (mkCustomContent [a])))]).
Proof.
  destruct f; cbn [flow_start]; intros Hin.
  - apply tti_facts.start_get_completion_inv in Hin as (-> & _).
    split; [|discriminate]. repeat constructor; intros cc [=].
  - apply dial_itt_facts.dial_start_get_completion_inv in Hin as (a & -> & _).
    split; [|intros _; exists a; reflexivity]. repeat constructor.
  - apply openai_itt_facts.openai_start_get_completion_inv in Hin
      as (txt & data & _ & _ & _ & ->).
    split; [|discriminate]. repeat constructor; intros cc [=].
Qed.

Lemma demo_messages_content_invariant_witness :
  In (EvGetCompletion
        [PlainMsg (mkMessage USER "What do you see on this picture?"
           (Some (mkCustomContent
              [mkAttachment "dialx-banner.png" (Some "files/bucket/dialx-banner.png")
                            "image/png"])))]
        None (Ok text_only))
     (snd (flow_start DialImageToText (env_answering text_only) [])) /\
  (Forall (fun m => content_invariant m /\ custom_content_with_plain m)
     [PlainMsg (mkMessage USER "What do you see on this picture?"
        (Some (mkCustomContent
           [mkAttachment "dialx-banner.png" (Some "files/bucket/dialx-banner.png")
                         "image/png"])))] /\
   (DialImageToText = DialImageToText ->
    exists a,
      [PlainMsg (mkMessage USER "What do you see on this picture?"
         (Some (mkCustomContent
            [mkAttachment "dialx-banner.png" (Some "files/bucket/dialx-banner.png")
                          "image/png"])))]
      = [PlainMsg (mkMessage USER "What do you see on this picture?"
                             (Some (mkCustomContent [a])))])).
Proof.
  assert (In (EvGetCompletion
        [PlainMsg (mkMessage USER "What do you see on this picture?"
           (Some (mkCustomContent
              [mkAttachment "dialx-banner.png" (Some "files/bucket/dialx-banner.png")
                            "image/png"])))]
        None (Ok text_only))
     (snd (flow_start DialImageToText (env_answering text_only) []))) as Hin
    by (vm_compute; in_trace).
  split; [exact Hin|].
  exact (demo_messages_content_invariant _ _ _ _ _ _ Hin).
Defined.

(** C10. Executing the module [task_dial_itt] or [task_tti], as an import
    does, runs [start()]: the client is constructed and, once it is, the
    gateway is called.  The module [task_openai_itt] runs [start()] only
    when [__name__] is "__main__"; imported under any other name it makes
    no call at all. *)
Theorem import_runs_start env h name :
  task_dial_itt.module_body name env h = task_dial_itt.start env h /\
  task_tti.module_body name env h = task_tti.start env h /\
  (exists r t,
      snd (task_dial_itt.module_body name env h)
      = EvModelClient (DIAL_CHAT_COMPLETIONS_ENDPOINT env) "gpt-4o" (API_KEY env) r :: t) /\
  (exists r,
      In (EvModelClient (DIAL_CHAT_COMPLETIONS_ENDPOINT env) "dall-e-3" (API_KEY env) r)
         (snd (task_tti.module_body name env h))) /\
  (forall e d k,
      In (EvModelClient e d k (Ok tt)) (snd (task_tti.module_body name env h)) ->
      exists r, In (EvGetCompletion [PlainMsg (mkMessage USER "Sunny day on Bali" None)]
                                    (Some task_tti.custom_fields) r)
                   (snd (task_tti.module_body name env h))) /\
  (name <> "__main__" -> task_openai_itt.module_body name env h = (Ok tt, [])) /\
  task_openai_itt.module_body "task.image_to_text.openai.task_openai_itt" env h = (Ok tt, []) /\
  task_openai_itt.module_body "__main__" env h = task_openai_itt.start env h.
Proof.
  split; [reflexivity|]. split; [reflexivity|].
  split; [|split; [|split; [|split; [|split; reflexivity]]]].
  - unfold task_dial_itt.module_body.
    destruct (task_dial_itt.start env h) as [res t] eqn:Hrun. cbn [snd].
    unfold task_dial_itt.start in Hrun.
    apply bind_inv in Hrun as [(e & Hc & ->)|(x & t1 & t2 & Hc & _ & ->)];
      run_inv Hc; subst; eexists; eexists; reflexivity.
  - unfold task_tti.module_body.
    destruct (task_tti.start env h) as [res t] eqn:Hrun. cbn [snd].
    unfold task_tti.start in Hrun.
    run_inv Hrun; subst; eexists; in_trace.
  - unfold task_tti.module_body. apply tti_facts.start_calls_gateway.
  - intros Hname. unfold task_openai_itt.module_body.
    apply String.eqb_neq in Hname. rewrite Hname. reflexivity.
Qed.

(** ** The content model's constructor *)

Module content_model_facts.
Import content_model.

Lemma part_ok_false p :
  part_ok p = false <->
  p = TxtContent "" \/ exists u, p = ImgContent u /\ img_url u = "".
Proof.
  destruct p as [t|u]; cbn [part_ok]; rewrite negb_false_iff, String.eqb_eq.
  - split; [intros ->; left; reflexivity|].
    intros [[= ->]|(u & [=] & _)]. reflexivity.
  - split; [intros Hu; right; exists u; auto|].
    intros [[=]|(u' & [= <-] & Hu)]. exact Hu.
Qed.

(** Construction from well-formed parts succeeds and keeps role and
    parts as given. *)
Lemma new_ContentedMessage_ok r parts :
  parts <> [] -> forallb part_ok parts = true ->
  new_ContentedMessage r parts = inl (mkContentedMessage r parts).
Proof.
  intros Hne Hok. unfold new_ContentedMessage.
  destruct parts; [contradiction|]. rewrite Hok. reflexivity.
Qed.

(** C5. For every role, constructing a multimodal message fails with
    [InvalidMessageError] when the content sequence is empty, when some
    text part has an empty text, or when some image part has an empty
    url. *)
Theorem new_ContentedMessage_invalid r parts :
  parts = [] \/ In (TxtContent "") parts \/
    (exists u, In (ImgContent u) parts /\ img_url u = "") ->
  new_ContentedMessage r parts = inr InvalidMessageError.
Proof.
  intros Hbad. unfold new_ContentedMessage.
  destruct parts as [|p parts]; [reflexivity|].
  assert (forallb part_ok (p :: parts) = false) as ->; [|reflexivity].
  apply not_true_is_false. rewrite forallb_forall. intros Hall.
  destruct Hbad as [[=]|[Hin|(u & Hin & Hu)]]; apply Hall in Hin;
    cbn [part_ok] in Hin; [|rewrite Hu in Hin]; discriminate Hin.
Qed.

Lemma new_ContentedMessage_invalid_witness :
  ([TxtContent "describe"; ImgContent (mkImgUrl "")] = [] \/
   In (TxtContent "") [TxtContent "describe"; ImgContent (mkImgUrl "")] \/
   (exists u, In (ImgContent u) [TxtContent "describe"; ImgContent (mkImgUrl "")] /\
              img_url u = "")) /\
  new_ContentedMessage ASSISTANT [TxtContent "describe"; ImgContent (mkImgUrl "")]
    = inr InvalidMessageError.
Proof.
  assert ([TxtContent "describe"; ImgContent (mkImgUrl "")] = [] \/
          In (TxtContent "") [TxtContent "describe"; ImgContent (mkImgUrl "")] \/
          (exists u, In (ImgContent u) [TxtContent "describe"; ImgContent (mkImgUrl "")] /\
                     img_url u = "")) as Hbad.
  { right. right. exists (mkImgUrl ""). split; [in_trace | reflexivity]. }
  split; [exact Hbad|].
  exact (new_ContentedMessage_invalid ASSISTANT _ Hbad).
Defined.

Example empty_content_rejected_for_each_role :
  map (fun r => new_ContentedMessage r []) [SYSTEM; USER; ASSISTANT]
  = [inr InvalidMessageError; inr InvalidMessageError; inr InvalidMessageError].
Proof. reflexivity. Qed.
End content_model_facts.

(** ** The store round trip *)

Module store_model_facts.
Import store_model.

Section RoundTrip.
Variable choose_url : Store -> string -> string.

(** An upload to a store that is down or refuses the key hands out no
    attachment. *)
Lemma upload_refused name mime data st :
  reachable st = false \/ authenticated st = false ->
  exists cause, upload choose_url name mime data st = inr (UploadError cause).
Proof.
  unfold upload. intros [-> | ->]; cbn; [eexists; reflexivity|].
  destruct (reachable st); cbn; eexists; reflexivity.
Qed.

(** C3. Against a reachable store that accepts the client's key, for
    any non-empty payload and well-formed MIME string, an upload
    followed by a download of the url of the returned attachment
    gives back exactly the payload. *)
Theorem upload_download_round_trip name mime (data : bytes) st :
  data <> [] ->
  well_formed_mime mime = true ->
  reachable st = true ->
  authenticated st = true ->
  exists u st',
    upload choose_url name mime data st = inl (mkAttachment name (Some u) mime, st') /\
    download u st' = inl data.
Proof.
  intros _ _ Hr Ha. unfold upload, download. rewrite Hr, Ha. cbn.
  eexists. eexists. split; [reflexivity|].
  cbn. rewrite lookup_insert_eq. reflexivity.
Qed.
End RoundTrip.

Lemma upload_download_round_trip_witness :
  png_header <> [] /\
  well_formed_mime "image/png" = true /\
  reachable empty_store = true /\
  authenticated empty_store = true /\
  exists u st',
    upload bucket_url "dialx-banner.png" "image/png" png_header empty_store
      = inl (mkAttachment "dialx-banner.png" (Some u) "image/png", st') /\
    download u st' = inl png_header.
Proof.
  assert (png_header <> []) as Hne by discriminate.
  split; [exact Hne|]. split; [reflexivity|]. split; [reflexivity|].
  split; [reflexivity|].
  exact (upload_download_round_trip bucket_url "dialx-banner.png" "image/png"
           png_header empty_store Hne eq_refl eq_refl eq_refl).
Defined.
End store_model_facts.

(** * Further properties of the flows *)

(** ** Failure discipline: nothing is swallowed, nothing is retried *)

Lemma halts_app_no_failure t1 t2 :
  existsb failed t1 = false ->
  halts_at_failure (t1 ++ t2) = halts_at_failure t2.
Proof.
  induction t1 as [|e t1 IH]; [reflexivity|]. cbn [existsb app halts_at_failure].
  intros H. apply orb_false_iff in H as [-> H]. auto.
Qed.

Lemma halts_cleanup t : forallb cleanup t = true -> halts_at_failure t = true.
Proof.
  induction t as [|e t IH]; [reflexivity|]. cbn [forallb halts_at_failure].
  intros H. apply andb_true_iff in H as [_ H]. destruct (failed e); auto.
Qed.

Lemma halts_app_cleanup t1 t2 :
  halts_at_failure t1 = true -> forallb cleanup t2 = true ->
  halts_at_failure (t1 ++ t2) = true.
Proof.
  induction t1 as [|e t1 IH]; cbn [app halts_at_failure]; intros H1 H2.
  - apply halts_cleanup, H2.
  - destruct (failed e); [|auto]. rewrite forallb_app, H1, H2. reflexivity.
Qed.

Lemma disciplined_run_app {A B} (r1 : Result A) (r2 : Result B) t1 t2 :
  raised r1 = false -> disciplined_run r1 t1 -> disciplined_run r2 t2 ->
  disciplined_run r2 (t1 ++ t2).
Proof.
  intros Hok [He1 _] [He2 Hh2]. rewrite Hok in He1. split.
  - rewrite existsb_app, <- He1. exact He2.
  - rewrite halts_app_no_failure by auto. exact Hh2.
Qed.

Lemma disciplined_ret {A} (a : A) : disciplined (ret a).
Proof. intros env h. split; reflexivity. Qed.

Lemma disciplined_print s : disciplined (print s).
Proof. intros env h. split; reflexivity. Qed.

Lemma disciplined_now : disciplined datetime_now.
Proof. intros env h. split; reflexivity. Qed.

Lemma disciplined_call {A} (oracle : Env -> Trace -> Result A) ev :
  (forall r, failed (ev r) = raised r) -> disciplined (call oracle ev).
Proof.
  intros Hev env h. unfold call. cbn [fst snd]. split.
  - cbn [existsb]. rewrite Hev, orb_false_r. reflexivity.
  - cbn [halts_at_failure forallb]. destruct (failed _); reflexivity.
Qed.

Lemma disciplined_bind {A B} (m : M A) (f : A -> M B) :
  disciplined m -> (forall a, disciplined (f a)) -> disciplined (bind m f).
Proof.
  intros Hm Hf env h. rewrite run_bind. specialize (Hm env h).
  destruct (m env h) as [[a|e] t1]; cbn [fst snd] in *; [|exact Hm].
  eapply disciplined_run_app; [|exact Hm|apply Hf]. reflexivity.
Qed.

Lemma disciplined_with {A B} (enter : M A) (leave : A -> M unit) (body : A -> M B) :
  disciplined enter ->
  (forall a, disciplined (leave a)) -> (forall a, only_cleanup (leave a)) ->
  (forall a, disciplined (body a)) ->
  disciplined (with_ enter leave body).
Proof.
  intros He Hl Hc Hb env h. unfold with_. specialize (He env h).
  destruct (enter env h) as [[a|e] t1]; cbn [fst snd] in *; [|exact He].
  specialize (Hb a env (h ++ t1)). destruct (body a env (h ++ t1)) as [rb t2].
  specialize (Hl a env (h ++ t1 ++ t2)). specialize (Hc a env (h ++ t1 ++ t2)).
  destruct (leave a env (h ++ t1 ++ t2)) as [x t3]. cbn [fst snd] in *.
  eapply (disciplined_run_app (Ok a)); [reflexivity|exact He|].
  destruct Hb as [Hb1 Hb2], Hl as [Hl1 Hl2]. split.
  - rewrite existsb_app, <- Hb1, <- Hl1. destruct x, rb; reflexivity.
  - apply halts_app_cleanup; assumption.
Qed.

Lemma disciplined_with_env {A} (f : Env -> M A) :
  (forall env, disciplined (f env)) -> disciplined (with_env f).
Proof. intros Hf env h. apply Hf. Qed.

Lemma disciplined_for_enumerate {A} (body : nat -> A -> M unit) l :
  (forall idx x, disciplined (body idx x)) ->
  forall idx, disciplined (for_enumerate idx l body).
Proof.
  intros Hb. induction l as [|x l IH]; intros idx; cbn [for_enumerate].
  - apply disciplined_ret.
  - apply disciplined_bind; [apply Hb | intros _; apply IH].
Qed.

Ltac disciplined_call_tac :=
  apply disciplined_call; intros [?|?]; reflexivity.

Ltac disciplined_step :=
  lazymatch goal with
  | |- disciplined (with_env _) => apply disciplined_with_env; intros ?
  | |- disciplined (bind _ _) => apply disciplined_bind; [|intros ?]
  | |- disciplined (with_ _ _ _) =>
      apply disciplined_with; [|intros ?|intros ? ? ?; reflexivity|intros ?]
  | |- disciplined (async_with_bucket_client _ _ _) => unfold async_with_bucket_client
  | |- disciplined (with_open _ _ _) => unfold with_open
  | |- disciplined (for_enumerate _ _ _) => apply disciplined_for_enumerate; intros ? ?
  | |- disciplined (ret _) => apply disciplined_ret
  | |- disciplined (print _) => apply disciplined_print
  | |- disciplined (close _) => disciplined_call_tac
  | |- disciplined datetime_now => apply disciplined_now
  | |- disciplined (DialModelClient _ _ _) => disciplined_call_tac
  | |- disciplined (client_get_completion _ _) => disciplined_call_tac
  | |- disciplined (DialBucketClient _ _) => disciplined_call_tac
  | |- disciplined bucket_aenter => disciplined_call_tac
  | |- disciplined bucket_aexit => disciplined_call_tac
  | |- disciplined (bucket_put_file _ _ _) => disciplined_call_tac
  | |- disciplined (bucket_get_file _) => disciplined_call_tac
  | |- disciplined (open_ _ _) => disciplined_call_tac
  | |- disciplined (read _) => disciplined_call_tac
  | |- disciplined (write _ _) => disciplined_call_tac
  end.
Ltac disciplined_tac := repeat disciplined_step.

Lemma put_image_disciplined : disciplined task_dial_itt._put_image.
Proof. unfold task_dial_itt._put_image. disciplined_tac. Qed.

Lemma save_one_disciplined n idx a : disciplined (task_tti.save_one n idx a).
Proof. unfold task_tti.save_one. destruct (truthy (url a)); disciplined_tac. Qed.

Lemma save_images_disciplined atts : disciplined (task_tti._save_images atts).
Proof. unfold task_tti._save_images. disciplined_tac. apply save_one_disciplined. Qed.

Lemma handle_response_disciplined response :
  disciplined (task_tti.handle_response response).
Proof.
  unfold task_tti.handle_response.
  destruct (resp_custom_content response) as [cc|]; [destruct (attachments cc)|];
    disciplined_tac.
  - unfold task_tti.print_attachment. disciplined_tac.
  - apply save_images_disciplined.
Qed.

Lemma flow_disciplined f : disciplined (flow_start f).
Proof.
  destruct f; cbn [flow_start].
  - unfold task_tti.start. disciplined_tac. apply handle_response_disciplined.
  - unfold task_dial_itt.start. disciplined_tac. apply put_image_disciplined.
  - unfold task_openai_itt.start. disciplined_tac.
Qed.

(** X1. No entry point swallows an exception or carries on after one:
    when one of its external calls has failed the entry point raises, and
    after the first failed call it does nothing but leave its [with]
    blocks (close the file, leave the store session): no retry, no further
    call, no print. *)
Theorem entry_points_fail_fast p env h :
  (existsb failed (snd (run_entry p env h)) = true ->
   raised (fst (run_entry p env h)) = true) /\
  halts_at_failure (snd (run_entry p env h)) = true.
Proof.
  enough (raised (fst (run_entry p env h)) = existsb failed (snd (run_entry p env h)) /\
          halts_at_failure (snd (run_entry p env h)) = true) as [Hr Hh]
    by (split; [intros Hf; rewrite Hr; exact Hf | exact Hh]).
  destruct p as [|atts|f]; cbn [run_entry].
  - pose proof (put_image_disciplined env h) as [Hr Hh].
    destruct (task_dial_itt._put_image env h) as [[a|e] t]; cbn [fst snd] in *; auto.
  - apply save_images_disciplined.
  - apply flow_disciplined.
Qed.

Example tti_start_stops_at_refused_close :
  raised (fst (task_tti.start env_close_fails [])) = true /\
  written_files (snd (task_tti.start env_close_fails []))
  = ["generated_image_20240115_103045_1.png"].
Proof. split; reflexivity. Qed.

(** ** More on saving the images *)

Module save_images_more.
Import task_tti.

(** The three ways [_save_images] can go: no client, no session, or the
    loop inside the session. *)
Lemma save_images_inv atts env h r t :
  _save_images atts env h = (r, t) ->
  (exists e, t = [EvBucketClient (API_KEY env) (DIAL_URL env) (Raise e)] /\ r = Raise e) \/
  (exists e, t = [EvBucketClient (API_KEY env) (DIAL_URL env) (Ok tt); EvAEnter (Raise e)]
             /\ r = Raise e) \/
  (exists h' rb t2 x,
      for_enumerate 0 atts (save_one (length atts)) env h' = (rb, t2) /\
      t = EvBucketClient (API_KEY env) (DIAL_URL env) (Ok tt) :: EvAEnter (Ok tt)
            :: t2 ++ [EvAExit x] /\
      r = match x with Raise e' => Raise e' | Ok _ => rb end).
Proof.
  intros Hrun. unfold _save_images in Hrun. run_inv Hrun; run_simpl.
  - left. eexists. split; reflexivity.
  - right. left. eexists. split; reflexivity.
  - right. right. do 4 eexists. split; [eassumption|]. split; reflexivity.
Qed.

Lemma downloaded_urls_app t1 t2 :
  downloaded_urls (t1 ++ t2) = downloaded_urls t1 ++ downloaded_urls t2.
Proof. apply omap_app. Qed.

(** A turn of the loop asks the store exactly when the attachment has a
    url, whatever happens next. *)
Lemma save_one_downloads n idx a env h r t :
  save_one n idx a env h = (r, t) ->
  downloaded_urls t = urls_of [a] /\ (has_url a = false -> r = Ok tt /\ t = []).
Proof.
  unfold save_one, urls_of, has_url. cbn [omap list_omap].
  destruct (truthy (url a)) eqn:Hu; intros Hrun.
  - apply save_images_facts.truthy_inv in Hu as (u & Hu & Hne). rewrite Hu in Hrun |- *.
    cbn [default from_option id] in Hrun.
    split; [|discriminate].
    run_inv Hrun; run_simpl; reflexivity.
  - run_inv Hrun. subst. split; [reflexivity|auto].
Qed.

Lemma save_loop_downloads n l : forall idx env h r t,
  for_enumerate idx l (save_one n) env h = (r, t) ->
  downloaded_urls t `prefix_of` urls_of l /\
  (r = Ok tt -> downloaded_urls t = urls_of l) /\
  (Forall (fun a => has_url a = false) l -> t = []).
Proof.
  induction l as [|a l IH]; intros idx env h r t Hrun; cbn [for_enumerate] in Hrun.
  - run_inv Hrun. subst. split; [reflexivity|]. split; reflexivity.
  - change (urls_of (a :: l)) with (urls_of ([a] ++ l)).
    unfold urls_of at 1 2. rewrite omap_app. fold (urls_of [a]) (urls_of l).
    apply bind_inv in Hrun as [(e & Hone & ->)|(x & t1 & t2 & Hone & Hrest & ->)];
      apply save_one_downloads in Hone as (Hd & Hnone).
    + rewrite Hd. split; [apply prefix_app_r; reflexivity|].
      split; [discriminate|].
      intros Hall. apply Forall_cons in Hall as [Ha _].
      destruct (Hnone Ha) as [[=] _].
    + apply IH in Hrest as (IHp & IHeq & IHnone).
      rewrite downloaded_urls_app, Hd.
      split; [apply prefix_app, IHp|]. split; [intros Hr; rewrite (IHeq Hr); reflexivity|].
      intros Hall. apply Forall_cons in Hall as [Ha Hall].
      destruct (Hnone Ha) as [_ ->]. rewrite (IHnone Hall). reflexivity.
Qed.

Lemma save_images_downloads_prefix env h atts :
  downloaded_urls (snd (_save_images atts env h)) `prefix_of` urls_of atts.
Proof.
  destruct (_save_images atts env h) as [r t] eqn:Hrun. cbn [snd].
  apply save_images_inv in Hrun
    as [(e & -> & ->)|[(e & -> & ->)|(h' & rb & t2 & x & Hloop & -> & ->)]];
    [apply prefix_nil..|].
  apply save_loop_downloads in Hloop as (Hp & _ & _).
  change (downloaded_urls (EvBucketClient (API_KEY env) (DIAL_URL env) (Ok tt)
            :: EvAEnter (Ok tt) :: t2 ++ [EvAExit x]))
    with (downloaded_urls (t2 ++ [EvAExit x])).
  rewrite downloaded_urls_app. cbn. rewrite app_nil_r. exact Hp.
Qed.

(** X2. [_save_images] asks the store for the urls of the attachments
    that have one, in list order and each at most once: what it asked for
    is always an initial segment of that list, and the whole list when it
    returns normally. *)
Theorem save_images_downloads_in_order env h atts :
  downloaded_urls (snd (_save_images atts env h)) `prefix_of` urls_of atts /\
  (fst (_save_images atts env h) = Ok tt ->
   downloaded_urls (snd (_save_images atts env h)) = urls_of atts).
Proof.
  destruct (_save_images atts env h) as [r t] eqn:Hrun. cbn [fst snd].
  apply save_images_inv in Hrun
    as [(e & -> & ->)|[(e & -> & ->)|(h' & rb & t2 & x & Hloop & -> & ->)]].
  - split; [apply prefix_nil|discriminate].
  - split; [apply prefix_nil|discriminate].
  - apply save_loop_downloads in Hloop as (Hp & Heq & _).
    change (downloaded_urls (EvBucketClient (API_KEY env) (DIAL_URL env) (Ok tt)
              :: EvAEnter (Ok tt) :: t2 ++ [EvAExit x]))
      with (downloaded_urls (t2 ++ [EvAExit x])).
    rewrite downloaded_urls_app. cbn. rewrite app_nil_r.
    split; [exact Hp|]. intros Hr. apply Heq. destruct x; [exact Hr|discriminate Hr].
Qed.

Example downloads_stop_at_first_refusal :
  downloaded_urls (snd (_save_images [generated_1; pending_2; generated_3]
                                     env_download_fails []))
  = ["https://fake-bucket.example.com/files/image1.png"] /\
  urls_of [generated_1; pending_2; generated_3]
  = ["https://fake-bucket.example.com/files/image1.png";
     "https://fake-bucket.example.com/files/image3.png"].
Proof. split; reflexivity. Qed.



End save_images_more.

(** ** The text-to-image flow, end to end *)

Module tti_more.
Import task_tti.

Lemma written_files_none t : Forall not_write t -> written_files t = [].
Proof.
  induction t as [|e t IH]; [reflexivity|]. intros Ht.
  apply Forall_cons in Ht as [He Ht]. unfold written_files in *. cbn [omap list_omap].
  destruct e; try contradiction; auto.
Qed.

Lemma prints_not_write t : Forall is_print t -> Forall not_write t.
Proof.
  intros Ht. eapply Forall_impl; [exact Ht|].
  intros [] H; try contradiction; exact I.
Qed.

Lemma In_downloaded u r t : In (EvGetFile u r) t -> u ∈ downloaded_urls t.
Proof.
  intros Hin. apply list_elem_of_omap. exists (EvGetFile u r).
  split; [apply list_elem_of_In, Hin | reflexivity].
Qed.

(** Whatever [_save_images] asks the store for is the url of one of the
    attachments it was given. *)
Lemma save_images_get_file atts env h u r :
  In (EvGetFile u r) (snd (_save_images atts env h)) ->
  exists a, In a atts /\ url a = Some u /\ u <> "".
Proof.
  intros Hin. apply In_downloaded in Hin.
  destruct (save_images_more.save_images_downloads_prefix env h atts) as [k Hk].
  assert (u ∈ urls_of atts) as Hu by (rewrite Hk; apply elem_of_app; auto).
  apply list_elem_of_omap in Hu as (a & Ha & Hurl).
  exists a. split; [apply list_elem_of_In, Ha|].
  unfold has_url in Hurl. destruct (truthy (url a)) eqn:Ht; [|discriminate].
  apply save_images_facts.truthy_inv in Ht as (u' & Hu' & Hne).
  rewrite Hu' in Hurl. injection Hurl as <-. auto.
Qed.

Lemma save_images_files atts env h r t :
  _save_images atts env h = (r, t) ->
  NoDup (written_files t) /\
  (r = Ok tt -> length (written_files t) = length (List.filter has_url atts)).
Proof.
  intros Hrun. apply save_images_more.save_images_inv in Hrun
    as [(e & -> & ->)|[(e & -> & ->)|(h' & rb & t2 & x & Hloop & -> & ->)]].
  - split; [constructor|discriminate].
  - split; [constructor|discriminate].
  - apply save_images_facts.save_loop_spec in Hloop as (_ & _ & Hnodup & Hlen).
    change (written_files (EvBucketClient (API_KEY env) (DIAL_URL env) (Ok tt)
              :: EvAEnter (Ok tt) :: t2 ++ [EvAExit x]))
      with (written_files (t2 ++ [EvAExit x])).
    rewrite save_images_facts.written_files_app. cbn. rewrite app_nil_r.
    split; [exact Hnodup|]. intros Hr. apply Hlen. destruct x; [exact Hr|discriminate Hr].
Qed.

(** The loop that lists the attachments only prints. *)
Lemma print_loop_inv l : forall idx env h r t,
  for_enumerate idx l print_attachment env h = (r, t) ->
  r = Ok tt /\ Forall is_print t.
Proof.
  induction l as [|a l IH]; intros idx env h r t Hrun; cbn [for_enumerate] in Hrun.
  - run_inv Hrun. subst. split; [reflexivity|constructor].
  - apply bind_inv in Hrun as [(e & Hone & ->)|(x & t1 & t2 & Hone & Hrest & ->)];
      unfold print_attachment in Hone; run_inv Hone; run_simpl.
    apply IH in Hrest as (-> & Hp). split; [reflexivity|].
    cbn [app]. repeat (constructor; [exact I|]). exact Hp.
Qed.

(** What [start] does with the answer: either there is nothing to save
    and it only prints, or it prints, saves the attachments of the answer
    and, if that went well, prints again. *)
Lemma handle_response_inv response env h r t :
  handle_response response env h = (r, t) ->
  ((resp_custom_content response = None \/
    exists cc, resp_custom_content response = Some cc /\ attachments cc = []) /\
   r = Ok tt /\ Forall is_print t) \/
  (exists cc h' ts pre post,
      resp_custom_content response = Some cc /\ attachments cc <> [] /\
      _save_images (attachments cc) env h' = (r, ts) /\
      t = pre ++ ts ++ post /\ Forall is_print pre /\ Forall is_print post).
Proof.
  unfold handle_response. intros Hrun.
  destruct (resp_custom_content response) as [cc|] eqn:Hcc;
    [destruct (attachments cc) as [|a l] eqn:Hatt|].
  - left. run_inv Hrun; run_simpl. split; [right; eauto|].
    split; [reflexivity|repeat constructor].
  - right. rewrite <- Hatt in Hrun. run_inv Hrun; run_simpl.
    all: match goal with
         | Hp : for_enumerate _ _ print_attachment _ _ = _ |- _ =>
             apply print_loop_inv in Hp as (Hok & Hprints); try discriminate Hok
         end.
    all: match goal with
         | Hs : _save_images _ _ ?h' = (_, ?ts), Hprints : Forall is_print ?tfe |- _ =>
             exists cc, h', ts;
             eexists (EvPrint _ :: EvPrint _ :: EvPrint _ :: EvPrint _ :: EvPrint _
                        :: tfe ++ [EvPrint _; EvPrint _; EvPrint _]);
             eexists
         end.
    all: (split; [reflexivity|]); (split; [rewrite Hatt; discriminate|]).
    all: (split; [eassumption|]).
    all: cbn [app]; rewrite <- app_assoc; cbn [app].
    all: split;
      [first [reflexivity | instantiate (1 := []); rewrite app_nil_r; reflexivity]|].
    all: split;
      [do 5 (constructor; [exact I|]); apply Forall_app;
       split; [exact Hprints|repeat constructor]|].
    all: repeat constructor.
  - left. run_inv Hrun; run_simpl. split; [left; reflexivity|].
    split; [reflexivity|repeat constructor].
Qed.

(** X4. The text-to-image flow downloads nothing but what the gateway
    listed: every url it asks the store for is the non-empty url of an
    attachment in the response [get_completion] returned. *)
Theorem tti_downloads_only_response_urls env h u r :
  In (EvGetFile u r) (snd (start env h)) ->
  exists msgs cf response cc a,
    In (EvGetCompletion msgs cf (Ok response)) (snd (start env h)) /\
    resp_custom_content response = Some cc /\
    In a (attachments cc) /\ url a = Some u /\ u <> "".
Proof.
  destruct (start env h) as [res t] eqn:Hrun. cbn [snd]. intros Hin.
  unfold start in Hrun. run_inv Hrun; run_simpl; in_cases Hin.
  match goal with
  | Hh : handle_response ?resp _ _ = _ |- _ =>
      apply handle_response_inv in Hh
        as [(_ & _ & Hp)|(cc & h' & ts & pre & post & Hcc & _ & Hs & -> & Hpre & Hpost)];
      [|exists [PlainMsg (mkMessage USER "Sunny day on Bali" None)],
               (Some custom_fields), resp, cc]
  end.
  - apply (proj1 (List.Forall_forall _ _) Hp) in Hin. destruct Hin.
  - apply in_app_or in Hin as [Hin|Hin];
      [apply (proj1 (List.Forall_forall _ _) Hpre) in Hin; destruct Hin|].
    apply in_app_or in Hin as [Hin|Hin];
      [|apply (proj1 (List.Forall_forall _ _) Hpost) in Hin; destruct Hin].
    pose proof (save_images_get_file (attachments cc) env h' u r) as Hg.
    rewrite Hs in Hg. destruct (Hg Hin) as (a & Ha & Hu & Hne).
    exists a. split; [in_trace|]. auto.
Qed.

Lemma tti_downloads_only_response_urls_witness :
  In (EvGetFile "https://fake-bucket.example.com/files/image3.png" (Ok png_header))
     (snd (start (env_answering three_images) [])) /\
  exists msgs cf response cc a,
    In (EvGetCompletion msgs cf (Ok response)) (snd (start (env_answering three_images) [])) /\
    resp_custom_content response = Some cc /\
    In a (attachments cc) /\
    url a = Some "https://fake-bucket.example.com/files/image3.png" /\
    "https://fake-bucket.example.com/files/image3.png" <> "".
Proof.
  assert (In (EvGetFile "https://fake-bucket.example.com/files/image3.png" (Ok png_header))
             (snd (start (env_answering three_images) []))) as Hin
    by (vm_compute; in_trace).
  split; [exact Hin|].
  exact (tti_downloads_only_response_urls _ _ _ _ Hin).
Defined.

(** X5. When the text-to-image flow returns normally, the files it wrote
    are pairwise distinct and there is exactly one for each attachment of
    the gateway's response that has a url. *)
Theorem tti_start_saves_response_images env h msgs cf response cc :
  In (EvGetCompletion msgs cf (Ok response)) (snd (start env h)) ->
  resp_custom_content response = Some cc ->
  fst (start env h) = Ok tt ->
  NoDup (written_files (snd (start env h))) /\
  length (written_files (snd (start env h)))
  = length (List.filter has_url (attachments cc)).
Proof.
  intros Hin Hcc.
  apply tti_facts.start_get_completion_inv in Hin as (_ & _ & pre & Hpre & Hrun).
  destruct (Hrun response eq_refl) as (h' & ->). clear Hrun. cbn [fst snd].
  destruct (handle_response response env h') as [r t] eqn:Hh. cbn [fst snd]. intros ->.
  rewrite !save_images_facts.written_files_app.
  rewrite (written_files_none pre).
  2:{ eapply Forall_impl; [exact Hpre|]. intros [] H; try contradiction; exact I. }
  cbn [app]. change (written_files [EvGetCompletion msgs cf (Ok response)]) with (@nil string).
  cbn [app].
  apply handle_response_inv in Hh
    as [(Hnone & _ & Hp)|(cc' & h2 & ts & pre' & post & Hcc' & _ & Hs & -> & Hp1 & Hp2)].
  - rewrite (written_files_none t) by (apply prints_not_write, Hp).
    split; [constructor|].
    destruct Hnone as [Hn|(cc' & Hcc' & Hatt)]; [congruence|].
    rewrite Hcc in Hcc'. injection Hcc' as <-. rewrite Hatt. reflexivity.
  - rewrite Hcc in Hcc'. injection Hcc' as <-.
    rewrite !save_images_facts.written_files_app.
    rewrite (written_files_none pre') by (apply prints_not_write, Hp1).
    rewrite (written_files_none post) by (apply prints_not_write, Hp2).
    rewrite app_nil_r. cbn [app].
    apply save_images_files in Hs as (Hnodup & Hlen). auto.
Qed.

Lemma tti_start_saves_response_images_witness :
  In (EvGetCompletion [PlainMsg (mkMessage USER "Sunny day on Bali" None)]
        (Some custom_fields) (Ok three_images))
     (snd (start (env_answering three_images) [])) /\
  resp_custom_content three_images
    = Some (mkCustomContent [generated_1; pending_2; generated_3]) /\
  fst (start (env_answering three_images) []) = Ok tt /\
  NoDup (written_files (snd (start (env_answering three_images) []))) /\
  length (written_files (snd (start (env_answering three_images) [])))
  = length (List.filter has_url
              (attachments (mkCustomContent [generated_1; pending_2; generated_3]))).
Proof.
  assert (In (EvGetCompletion [PlainMsg (mkMessage USER "Sunny day on Bali" None)]
                (Some custom_fields) (Ok three_images))
             (snd (start (env_answering three_images) []))) as Hin
    by (vm_compute; in_trace).
  assert (fst (start (env_answering three_images) []) = Ok tt) as Hok by reflexivity.
  split; [exact Hin|]. split; [reflexivity|]. split; [exact Hok|].
  exact (tti_start_saves_response_images _ _ _ _ _ _ Hin eq_refl Hok).
Defined.

Example tti_start_writes_two_of_three :
  written_files (snd (start (env_answering three_images) []))
  = ["generated_image_20240115_103045_1.png"; "generated_image_20240115_103045_3.png"].
Proof. reflexivity. Qed.

End tti_more.

(** ** The upload flow, end to end *)

Module dial_itt_more.
Import task_dial_itt.

(** When [_put_image] returns, the banner was read, uploaded under its
    name, and the attachment carries the url the store answered; the
    session is closed again. *)
Lemma put_image_ok_inv env h a t :
  _put_image env h = (Ok a, t) ->
  exists path data resp,
    In (EvRead path (Ok data)) t /\
    In (EvPutFile "dialx-banner.png" "image/png" data (Ok resp)) t /\
    a = mkAttachment "dialx-banner.png" (resp !! "url") "image/png" /\
    session_scan 0 t = Some 0.
Proof.
  intros Hrun. unfold _put_image in Hrun. run_inv Hrun; run_simpl.
  all: repeat match goal with
         | H : match ?x with Ok _ => _ | Raise _ => _ end = _ |- _ =>
             destruct x; try discriminate H
         | H : _ = match ?x with Ok _ => _ | Raise _ => _ end |- _ =>
             destruct x; try discriminate H
         end.
  match goal with H : Ok a = Ok _ |- _ => injection H as -> end.
  do 3 eexists. split; [in_trace|]. split; [in_trace|]. split; reflexivity.
Qed.

(** X6. By the time the upload flow calls the gateway, the banner has
    been read and its bytes uploaded under the name "dialx-banner.png", the
    store session is closed again, and the one message sent references the
    url the store answered. *)
Theorem dial_gateway_call_follows_upload env h msgs cf r :
  In (EvGetCompletion msgs cf r) (snd (start env h)) ->
  exists pre post path data resp,
    snd (start env h) = pre ++ EvGetCompletion msgs cf r :: post /\
    In (EvRead path (Ok data)) pre /\
    In (EvPutFile "dialx-banner.png" "image/png" data (Ok resp)) pre /\
    session_scan 0 pre = Some 0 /\
    msgs = [PlainMsg
              (mkMessage USER "What do you see on this picture?"
                 (Some (mkCustomContent
                          [mkAttachment "dialx-banner.png" (resp !! "url") "image/png"])))].
Proof.
  destruct (start env h) as [res t] eqn:Hrun. cbn [snd]. intros Hin.
  unfold start in Hrun. run_inv Hrun; run_simpl.
  all: match goal with
       | Hp : _put_image ?e ?h' = (_, ?t1), Hi : In ?ev _ |- _ =>
           pose proof (emits_In _ _ e h' ev
                         dial_itt_facts.put_image_emits_no_get_completion) as Hno;
           rewrite Hp in Hno; cbn [snd] in Hno
       | _ => idtac
       end.
  all: cbn [app In] in Hin.
  all: repeat match type of Hin with
         | _ \/ _ => destruct Hin as [Hin|Hin]; [try discriminate Hin|]
         | In _ (_ ++ _) => apply in_app_or in Hin as [Hin|Hin]; [destruct (Hno Hin)|]
         | In _ (_ :: _) => cbn [In] in Hin
         | In _ [] => destruct Hin
         | False => destruct Hin
         end.
  all: try (destruct (Hno Hin)).
  all: injection Hin as <- <- <-.
  all: match goal with
       | Hp : _put_image _ _ = (Ok _, _) |- _ =>
           apply put_image_ok_inv in Hp as (path & data & resp & Hread & Hput & -> & Hscan)
       end.
  all: match type of Hscan with
       | session_scan 0 ?t1 = _ =>
           eexists (EvModelClient _ _ _ _
                      :: t1 ++ [EvPrint _; EvPrint _; EvPrint _; EvPrint _;
                                EvPrint _; EvPrint _; EvPrint _; EvPrint _]);
           eexists; exists path, data, resp
       end.
  all: split; [cbn [app]; rewrite <- app_assoc; cbn [app]; reflexivity|].
  all: split; [right; apply in_or_app; left; exact Hread|].
  all: split; [right; apply in_or_app; left; exact Hput|].
  all: split; [|reflexivity].
  all: cbn [session_scan]; rewrite session_scan_app, Hscan; reflexivity.
Qed.

Lemma dial_gateway_call_follows_upload_witness :
  In (EvGetCompletion
        [PlainMsg (mkMessage USER "What do you see on this picture?"
           (Some (mkCustomContent
              [mkAttachment "dialx-banner.png" (Some "files/bucket/dialx-banner.png")
                            "image/png"])))]
        None (Ok text_only))
     (snd (start (env_answering text_only) [])) /\
  exists pre post path data resp,
    snd (start (env_answering text_only) [])
    = pre ++ EvGetCompletion
               [PlainMsg (mkMessage USER "What do you see on this picture?"
                  (Some (mkCustomContent
                     [mkAttachment "dialx-banner.png" (Some "files/bucket/dialx-banner.png")
                                   "image/png"])))]
               None (Ok text_only) :: post /\
    In (EvRead path (Ok data)) pre /\
    In (EvPutFile "dialx-banner.png" "image/png" data (Ok resp)) pre /\
    session_scan 0 pre = Some 0 /\
    [PlainMsg (mkMessage USER "What do you see on this picture?"
       (Some (mkCustomContent
          [mkAttachment "dialx-banner.png" (Some "files/bucket/dialx-banner.png")
                        "image/png"])))]
    = [PlainMsg
         (mkMessage USER "What do you see on this picture?"
            (Some (mkCustomContent
                     [mkAttachment "dialx-banner.png" (resp !! "url") "image/png"])))].
Proof.
  assert (In (EvGetCompletion
        [PlainMsg (mkMessage USER "What do you see on this picture?"
           (Some (mkCustomContent
              [mkAttachment "dialx-banner.png" (Some "files/bucket/dialx-banner.png")
                            "image/png"])))]
        None (Ok text_only))
     (snd (start (env_answering text_only) []))) as Hin
    by (vm_compute; in_trace).
  split; [exact Hin|].
  exact (dial_gateway_call_follows_upload _ _ _ _ _ Hin).
Defined.

End dial_itt_more.

(** ** Sessions and files across whole flows *)

Lemma session_scan_no_store t : forall n,
  Forall no_store_event t -> session_scan n t = Some n.
Proof.
  induction t as [|e t IH]; intros n Ht; [reflexivity|].
  apply Forall_cons in Ht as [He Ht].
  destruct e as [| | | |[]| | | | | | | |]; cbn [session_scan]; try contradiction; auto.
Qed.

Lemma prints_no_store t : Forall is_print t -> Forall no_store_event t.
Proof.
  intros Ht. eapply Forall_impl; [exact Ht|].
  intros [] H; try contradiction; exact I.
Qed.

Lemma save_images_session atts env h r t :
  task_tti._save_images atts env h = (r, t) -> session_scan 0 t = Some 0.
Proof.
  intros Hrun. apply save_images_more.save_images_inv in Hrun
    as [(e & -> & ->)|[(e & -> & ->)|(h' & rb & t2 & x & Hloop & -> & ->)]];
    try reflexivity.
  pose proof (emits_for_enumerate session_neutral _ atts
                (save_images_facts.save_one_session_neutral (length atts)) 0 env h') as Hn.
  rewrite Hloop in Hn. cbn [snd] in Hn.
  cbn [session_scan]. rewrite session_scan_app, session_scan_neutral by exact Hn.
  reflexivity.
Qed.

Lemma handle_response_session response env h r t :
  task_tti.handle_response response env h = (r, t) -> session_scan 0 t = Some 0.
Proof.
  intros Hrun. apply tti_more.handle_response_inv in Hrun
    as [(_ & _ & Hp)|(cc & h' & ts & pre & post & _ & _ & Hs & -> & Hp1 & Hp2)].
  - apply session_scan_no_store, prints_no_store, Hp.
  - rewrite session_scan_app.
    rewrite (session_scan_no_store pre) by (apply prints_no_store, Hp1).
    rewrite session_scan_app, (save_images_session _ _ _ _ _ Hs).
    apply session_scan_no_store, prints_no_store, Hp2.
Qed.

Lemma openai_start_no_store : emits no_store_event task_openai_itt.start.
Proof. unfold task_openai_itt.start. emits_tac. Qed.

(** X7. Each of the three flows, run from start to end on any
    environment, calls the store only inside a session and leaves no
    session open, whether it returns or raises. *)
Theorem flows_release_session f env h :
  session_scan 0 (snd (flow_start f env h)) = Some 0.
Proof.
  destruct f; cbn [flow_start].
  - destruct (task_tti.start env h) as [r t] eqn:Hrun. cbn [snd].
    unfold task_tti.start in Hrun. run_inv Hrun; run_simpl; try reflexivity.
    cbn [app session_scan].
    match goal with
    | Hh : task_tti.handle_response _ _ _ = _ |- _ =>
        exact (handle_response_session _ _ _ _ _ Hh)
    end.
  - destruct (task_dial_itt.start env h) as [r t] eqn:Hrun. cbn [snd].
    unfold task_dial_itt.start in Hrun. run_inv Hrun; run_simpl; try reflexivity.
    all: match goal with
         | Hp : task_dial_itt._put_image ?e ?h' = (_, ?t1) |- _ =>
             assert (session_scan 0 t1 = Some 0) as Hscan
         end.
    all: try (match goal with
              | Hp : task_dial_itt._put_image _ _ = _ |- session_scan 0 _ = Some 0 =>
                  unfold task_dial_itt._put_image in Hp; run_inv Hp; run_simpl; reflexivity
              end).
    all: cbn [app session_scan]; rewrite ?session_scan_app, ?app_nil_r, Hscan; reflexivity.
  - apply session_scan_no_store, openai_start_no_store.
Qed.

Lemma file_scan_app t1 : forall cur t2,
  file_scan cur (t1 ++ t2) =
  match file_scan cur t1 with
  | Some cur' => file_scan cur' t2
  | None => None
  end.
Proof.
  induction t1 as [|e t1 IH]; intros cur t2; [reflexivity|].
  destruct e as [| | | | | | | |? ? []| | | |]; cbn [app file_scan]; try apply IH;
    destruct cur; try reflexivity; try apply IH;
    destruct (String.eqb _ _); try reflexivity; apply IH.
Qed.

Lemma file_scan_no_file t : forall cur,
  Forall no_file_event t -> file_scan cur t = Some cur.
Proof.
  induction t as [|e t IH]; intros cur Ht; [reflexivity|].
  apply Forall_cons in Ht as [He Ht].
  destruct e as [| | | | | | | |? ? []| | | |]; cbn [file_scan]; try contradiction; auto.
Qed.

Lemma prints_no_file t : Forall is_print t -> Forall no_file_event t.
Proof.
  intros Ht. eapply Forall_impl; [exact Ht|].
  intros [] H; try contradiction; exact I.
Qed.

(** Evaluates [file_scan] along an explicit trace. *)
Ltac file_scan_tac :=
  cbn [app file_scan]; rewrite ?String.eqb_refl; cbn [file_scan]; try reflexivity.

Lemma save_one_files n idx a env h r t :
  task_tti.save_one n idx a env h = (r, t) -> file_scan None t = Some None.
Proof.
  unfold task_tti.save_one. destruct (truthy (url a)); intros Hrun;
    run_inv Hrun; run_simpl; repeat file_scan_tac.
Qed.

Lemma save_loop_files n l : forall idx env h r t,
  for_enumerate idx l (task_tti.save_one n) env h = (r, t) ->
  file_scan None t = Some None.
Proof.
  induction l as [|a l IH]; intros idx env h r t Hrun; cbn [for_enumerate] in Hrun.
  - run_inv Hrun. subst. reflexivity.
  - apply bind_inv in Hrun as [(e & Hone & ->)|(x & t1 & t2 & Hone & Hrest & ->)].
    + eapply save_one_files, Hone.
    + rewrite file_scan_app, (save_one_files _ _ _ _ _ _ _ Hone). eapply IH, Hrest.
Qed.

Lemma save_images_file_scan atts env h r t :
  task_tti._save_images atts env h = (r, t) -> file_scan None t = Some None.
Proof.
  intros Hrun. apply save_images_more.save_images_inv in Hrun
    as [(e & -> & ->)|[(e & -> & ->)|(h' & rb & t2 & x & Hloop & -> & ->)]];
    try reflexivity.
  cbn [file_scan]. rewrite file_scan_app, (save_loop_files _ _ _ _ _ _ _ Hloop).
  reflexivity.
Qed.

Lemma put_image_file_scan env h r t :
  task_dial_itt._put_image env h = (r, t) -> file_scan None t = Some None.
Proof.
  intros Hrun. unfold task_dial_itt._put_image in Hrun.
  run_inv Hrun; run_simpl; repeat file_scan_tac.
Qed.

Lemma handle_response_file_scan response env h r t :
  task_tti.handle_response response env h = (r, t) -> file_scan None t = Some None.
Proof.
  intros Hrun. apply tti_more.handle_response_inv in Hrun
    as [(_ & _ & Hp)|(cc & h' & ts & pre & post & _ & _ & Hs & -> & Hp1 & Hp2)].
  - apply file_scan_no_file, prints_no_file, Hp.
  - rewrite file_scan_app.
    rewrite (file_scan_no_file pre) by (apply prints_no_file, Hp1).
    rewrite file_scan_app, (save_images_file_scan _ _ _ _ _ Hs).
    apply file_scan_no_file, prints_no_file, Hp2.
Qed.

(** X8. Every entry point opens at most one local file at a time, reads
    or writes only the file it has open, and has closed it by the time it
    returns or raises. *)
Theorem files_always_closed p env h :
  file_scan None (snd (run_entry p env h)) = Some None.
Proof.
  destruct p as [|atts|[]]; cbn [run_entry flow_start].
  - destruct (task_dial_itt._put_image env h) as [r t] eqn:Hrun. cbn [snd].
    eapply put_image_file_scan, Hrun.
  - destruct (task_tti._save_images atts env h) as [r t] eqn:Hrun. cbn [snd].
    eapply save_images_file_scan, Hrun.
  - destruct (task_tti.start env h) as [r t] eqn:Hrun. cbn [snd].
    unfold task_tti.start in Hrun. run_inv Hrun; run_simpl; try reflexivity.
    cbn [app file_scan].
    match goal with
    | Hh : task_tti.handle_response _ _ _ = _ |- _ =>
        exact (handle_response_file_scan _ _ _ _ _ Hh)
    end.
  - destruct (task_dial_itt.start env h) as [r t] eqn:Hrun. cbn [snd].
    unfold task_dial_itt.start in Hrun. run_inv Hrun; run_simpl; try reflexivity.
    all: match goal with
         | Hp : task_dial_itt._put_image _ _ = _ |- _ =>
             pose proof (put_image_file_scan _ _ _ _ Hp) as Hscan
         end.
    all: cbn [app file_scan]; rewrite ?file_scan_app, ?app_nil_r, Hscan; reflexivity.
  - destruct (task_openai_itt.start env h) as [r t] eqn:Hrun. cbn [snd].
    unfold task_openai_itt.start in Hrun. run_inv Hrun; run_simpl; repeat file_scan_tac.
Qed.

(** ** The inline-image flow, end to end *)

Module openai_itt_more.
Import task_openai_itt.


Example openai_requests_on_success :
  gateway_messages (snd (start (env_answering text_only) []))
  = openai_requests "data:image/png;base64,iVBORw0KGgo=".
Proof. reflexivity. Qed.

End openai_itt_more.

(** ** Where the banner is looked for *)

Lemma parent_removelast (p : Path) : p <> ["/"] -> parent p = removelast p.
Proof.
  intros Hp. unfold parent.
  destruct p as [|s [|s2 rest]]; try reflexivity.
  - destruct s as [|c [|c2 s']]; try reflexivity;
      destruct c as [[] [] [] [] [] [] [] []]; try reflexivity.
    contradiction.
  - destruct s as [|c [|c2 s']]; try reflexivity;
      destruct c as [[] [] [] [] [] [] [] []]; reflexivity.
Qed.

Lemma parent_snoc (l : Path) x : l ++ [x] <> ["/"] -> parent (l ++ [x]) = l.
Proof. intros H. rewrite parent_removelast by exact H. apply removelast_last. Qed.

Lemma parent_snoc_name (l : Path) x : x <> "/" -> parent (l ++ [x]) = l.
Proof.
  intros Hx. apply parent_snoc. destruct l as [|a [|b l]]; cbn; congruence.
Qed.

Lemma dial_image_path (root : Path) :
  truediv (parent (parent (parent (root ++ ["task"; "image_to_text"; "task_dial_itt.py"]))))
          "dialx-banner.png"
  = root ++ ["dialx-banner.png"].
Proof.
  unfold truediv. f_equal.
  change (root ++ ["task"; "image_to_text"; "task_dial_itt.py"])
    with (root ++ ["task"] ++ ["image_to_text"] ++ ["task_dial_itt.py"]).
  rewrite !app_assoc.
  rewrite !parent_snoc_name by discriminate. reflexivity.
Qed.

Lemma openai_image_path (root : Path) :
  truediv (parent (parent (parent (parent
     (root ++ ["task"; "image_to_text"; "openai"; "task_openai_itt.py"])))))
          "dialx-banner.png"
  = root ++ ["dialx-banner.png"].
Proof.
  unfold truediv. f_equal.
  change (root ++ ["task"; "image_to_text"; "openai"; "task_openai_itt.py"])
    with (root ++ ["task"] ++ ["image_to_text"] ++ ["openai"] ++ ["task_openai_itt.py"]).
  rewrite !app_assoc.
  rewrite !parent_snoc_name by discriminate. reflexivity.
Qed.

(** X10. With the two image-to-text scripts at their places under the
    project root, both look for the banner in the same place, the file
    "dialx-banner.png" directly under the root, and open it for reading
    only; neither opens any other file. *)
Theorem banner_opened_at_project_root env (root : Path) h p m r :
  dial_itt_file env = root ++ ["task"; "image_to_text"; "task_dial_itt.py"] ->
  openai_itt_file env = root ++ ["task"; "image_to_text"; "openai"; "task_openai_itt.py"] ->
  In (EvOpen p m r) (snd (task_dial_itt._put_image env h)) \/
  In (EvOpen p m r) (snd (task_openai_itt.start env h)) ->
  p = fspath (root ++ ["dialx-banner.png"]) /\ m = "rb".
Proof.
  intros Hd Ho [Hin|Hin].
  - destruct (task_dial_itt._put_image env h) as [res t] eqn:Hrun. cbn [snd] in Hin.
    unfold task_dial_itt._put_image, with_env in Hrun. cbv zeta in Hrun.
    rewrite Hd, dial_image_path in Hrun.
    run_inv Hrun; run_simpl; in_cases Hin; injection Hin as <- <- <-; split; reflexivity.
  - destruct (task_openai_itt.start env h) as [res t] eqn:Hrun. cbn [snd] in Hin.
    unfold task_openai_itt.start, with_env in Hrun. cbv zeta in Hrun.
    rewrite Ho, openai_image_path in Hrun.
    run_inv Hrun; run_simpl; in_cases Hin; injection Hin as <- <- <-; split; reflexivity.
Qed.

Lemma banner_opened_at_project_root_witness :
  dial_itt_file (env_answering text_only)
    = ["/"; "repo"] ++ ["task"; "image_to_text"; "task_dial_itt.py"] /\
  openai_itt_file (env_answering text_only)
    = ["/"; "repo"] ++ ["task"; "image_to_text"; "openai"; "task_openai_itt.py"] /\
  (In (EvOpen "/repo/dialx-banner.png" "rb" (Ok tt))
      (snd (task_dial_itt._put_image (env_answering text_only) [])) \/
   In (EvOpen "/repo/dialx-banner.png" "rb" (Ok tt))
      (snd (task_openai_itt.start (env_answering text_only) []))) /\
  "/repo/dialx-banner.png" = fspath (["/"; "repo"] ++ ["dialx-banner.png"]) /\
  "rb" = "rb".
Proof.
  assert (In (EvOpen "/repo/dialx-banner.png" "rb" (Ok tt))
             (snd (task_dial_itt._put_image (env_answering text_only) [])) \/
          In (EvOpen "/repo/dialx-banner.png" "rb" (Ok tt))
             (snd (task_openai_itt.start (env_answering text_only) []))) as Hin
    by (left; vm_compute; in_trace).
  split; [reflexivity|]. split; [reflexivity|]. split; [exact Hin|].
  exact (banner_opened_at_project_root (env_answering text_only) ["/"; "repo"] []
           _ _ _ eq_refl eq_refl Hin).
Defined.

(** ** File names and the data URI *)

(** X11. The names [_save_images] builds for different positions of the
    attachment list are different, whatever the clock said at either
    download: no image of one run overwrites another. *)
Theorem generated_file_names_distinct ts1 ts2 i j :
  i <> j -> task_tti.file_name_of ts1 i <> task_tti.file_name_of ts2 j.
Proof. intros Hij Heq. apply Hij. eapply file_name_of_inj, Heq. Qed.

Lemma generated_file_names_distinct_witness :
  0 <> 10 /\
  task_tti.file_name_of "20240115_103045" 0 <> task_tti.file_name_of "20240115_10304" 10.
Proof.
  assert (0 <> 10) as Hne by discriminate.
  split; [exact Hne|].
  exact (generated_file_names_distinct "20240115_103045" "20240115_10304" 0 10 Hne).
Defined.

Lemma string_of_list_byte_length l :
  String.length (string_of_list_byte l) = length l.
Proof.
  unfold string_of_list_byte.
  induction l as [|b l IH]; cbn [map string_of_list_ascii String.length length];
    [reflexivity | rewrite IH; reflexivity].
Qed.

Lemma string_length_app s1 s2 :
  String.length (s1 +:+ s2) = String.length s1 + String.length s2.
Proof.
  induction s1 as [|c s1 IH]; [reflexivity|].
  change (String c s1 +:+ s2) with (String c (s1 +:+ s2)).
  cbn [String.length]. rewrite IH. reflexivity.
Qed.

(** X12. The image url the inline-image flow builds from [data] is the
    22-character prefix followed by four characters for every three bytes
    of [data], the last group padded; all of it is ASCII, so decoding the
    encoder's output as UTF-8 cannot fail. *)
Theorem data_uri_length_and_charset data :
  String.length (task_openai_itt.data_uri (decode_utf8 (b64encode data)))
  = 22 + 4 * ((length data + 2) / 3) /\
  Forall (fun b => (Byte.to_N b < 128)%N) (b64encode data).
Proof.
  split; [|apply b64encode_ascii].
  unfold task_openai_itt.data_uri, decode_utf8.
  rewrite string_length_app, string_of_list_byte_length, b64encode_length.
  reflexivity.
Qed.

(** ** The encoder loses nothing *)

Section B64Injective.
Local Open Scope N_scope.

Lemma lt_64_sextets i : i < 64 -> In i sextets.
Proof.
  intros Hi. apply in_map_iff. exists (N.to_nat i).
  split; [apply N2Nat.id | apply in_seq; lia].
Qed.

Lemma b64_index_char i : i < 64 -> b64_index (b64_char i) = Some i.
Proof.
  intros Hi. apply lt_64_sextets in Hi. revert i Hi. apply List.Forall_forall.
  assert (forallb (fun i => match b64_index (b64_char i) with
                            | Some j => N.eqb j i
                            | None => false
                            end) sextets = true) as H by (vm_compute; reflexivity).
  apply List.Forall_forall. intros i Hi.
  apply (proj1 (forallb_forall _ _) H) in Hi.
  destruct (b64_index (b64_char i)) as [j|]; [|discriminate].
  apply N.eqb_eq in Hi. congruence.
Qed.

Lemma b64_char_inj i j : i < 64 -> j < 64 -> b64_char i = b64_char j -> i = j.
Proof.
  intros Hi Hj Heq. apply b64_index_char in Hi, Hj. congruence.
Qed.

Lemma b64_char_not_pad i : i < 64 -> b64_char i <> b64_pad.
Proof.
  intros Hi Heq. apply b64_index_char in Hi. rewrite Heq in Hi. discriminate Hi.
Qed.

Lemma sextet_div_mod k n : sextet k n = (n / 2 ^ (6 * k)) mod 64.
Proof.
  unfold sextet. rewrite N.shiftr_div_pow2.
  change 63 with (N.ones 6). rewrite N.land_ones. reflexivity.
Qed.

Lemma sextet_lt k n : sextet k n < 64.
Proof. rewrite sextet_div_mod. apply N.mod_lt. discriminate. Qed.

(** A 24-bit quantum is the sum of its four sextets. *)
Lemma sextets_sum n :
  n < 16777216 ->
  n = sextet 0 n + 64 * sextet 1 n + 4096 * sextet 2 n + 262144 * sextet 3 n.
Proof.
  intros Hn. rewrite !sextet_div_mod.
  change (2 ^ (6 * 0)) with 1. change (2 ^ (6 * 1)) with 64.
  change (2 ^ (6 * 2)) with (64 * 64). change (2 ^ (6 * 3)) with (64 * 64 * 64).
  rewrite N.div_1_r, <- !N.Div0.div_div.
  pose proof (N.div_mod n 64 ltac:(discriminate)) as H0.
  pose proof (N.div_mod (n / 64) 64 ltac:(discriminate)) as H1.
  pose proof (N.div_mod (n / 64 / 64) 64 ltac:(discriminate)) as H2.
  assert (n / 64 / 64 / 64 < 64) as H3.
  { rewrite !N.Div0.div_div. apply N.Div0.div_lt_upper_bound. exact Hn. }
  rewrite (N.mod_small (n / 64 / 64 / 64) 64) by exact H3.
  lia.
Qed.

Lemma land_shifted_low a y k : y < 2 ^ k -> N.land (a * 2 ^ k) y = 0.
Proof.
  intros Hy. apply N.bits_inj_0. intros i. rewrite N.land_spec.
  destruct (N.lt_ge_cases i k) as [Hlt|Hge].
  - rewrite N.mul_pow2_bits_low by exact Hlt. reflexivity.
  - assert (N.testbit y i = false) as ->; [|apply andb_false_r].
    destruct (N.eq_dec y 0) as [->|Hy0]; [apply N.bits_0|].
    apply N.bits_above_log2. apply N.lt_le_trans with k; [|exact Hge].
    apply N.log2_lt_pow2; [lia|exact Hy].
Qed.

Lemma lor_shiftl_add a y k : y < 2 ^ k -> N.lor (N.shiftl a k) y = a * 2 ^ k + y.
Proof.
  intros Hy. rewrite N.shiftl_mul_pow2.
  pose proof (land_shifted_low a y k Hy) as Hl.
  rewrite <- N.lxor_lor by exact Hl. symmetry. apply N.add_nocarry_lxor, Hl.
Qed.

Lemma quantum_sum b0 b1 b2 :
  quantum b0 b1 b2 = Byte.to_N b0 * 65536 + Byte.to_N b1 * 256 + Byte.to_N b2.
Proof.
  unfold quantum.
  pose proof (Byte.to_N_bounded b1) as H1. pose proof (Byte.to_N_bounded b2) as H2.
  rewrite (lor_shiftl_add (Byte.to_N b1) (Byte.to_N b2) 8) by (change (2 ^ 8) with 256; lia).
  rewrite lor_shiftl_add by (change (2 ^ 8) with 256; change (2 ^ 16) with 65536; lia).
  change (2 ^ 8) with 256. change (2 ^ 16) with 65536. lia.
Qed.

Lemma quantum_lt b0 b1 b2 : quantum b0 b1 b2 < 16777216.
Proof.
  rewrite quantum_sum.
  pose proof (Byte.to_N_bounded b0). pose proof (Byte.to_N_bounded b1).
  pose proof (Byte.to_N_bounded b2). lia.
Qed.

Lemma to_N_inj b b' : Byte.to_N b = Byte.to_N b' -> b = b'.
Proof.
  intros H. pose proof (Byte.of_to_N b) as Hb. rewrite H, Byte.of_to_N in Hb.
  congruence.
Qed.

Lemma sextet_0_two_bytes b0 b1 : sextet 0 (quantum b0 b1 Byte.x00) = 0.
Proof.
  rewrite sextet_div_mod, quantum_sum. change (2 ^ (6 * 0)) with 1. rewrite N.div_1_r.
  change (Byte.to_N Byte.x00) with 0.
  replace (Byte.to_N b0 * 65536 + Byte.to_N b1 * 256 + 0)
    with ((Byte.to_N b0 * 1024 + Byte.to_N b1 * 4) * 64) by lia.
  apply N.Div0.mod_mul.
Qed.

Lemma sextet_1_one_byte b0 : sextet 1 (quantum b0 Byte.x00 Byte.x00) = 0.
Proof.
  rewrite sextet_div_mod, quantum_sum. change (2 ^ (6 * 1)) with 64.
  change (Byte.to_N Byte.x00) with 0.
  replace (Byte.to_N b0 * 65536 + 0 * 256 + 0) with (Byte.to_N b0 * 1024 * 64) by lia.
  rewrite N.div_mul by discriminate.
  replace (Byte.to_N b0 * 1024) with (Byte.to_N b0 * 16 * 64) by lia.
  apply N.Div0.mod_mul.
Qed.

(** Quanta with the same four sextets are made of the same bytes. *)
Lemma quantum_inj b0 b1 b2 c0 c1 c2 :
  (forall k, In k [0; 1; 2; 3] ->
             sextet k (quantum b0 b1 b2) = sextet k (quantum c0 c1 c2)) ->
  b0 = c0 /\ b1 = c1 /\ b2 = c2.
Proof.
  intros Hs.
  assert (quantum b0 b1 b2 = quantum c0 c1 c2) as Hq.
  { rewrite (sextets_sum (quantum b0 b1 b2)) by apply quantum_lt.
    rewrite (sextets_sum (quantum c0 c1 c2)) by apply quantum_lt.
    rewrite (Hs 0), (Hs 1), (Hs 2), (Hs 3) by (cbn; auto). reflexivity. }
  rewrite !quantum_sum in Hq.
  pose proof (Byte.to_N_bounded b0). pose proof (Byte.to_N_bounded b1).
  pose proof (Byte.to_N_bounded b2). pose proof (Byte.to_N_bounded c0).
  pose proof (Byte.to_N_bounded c1). pose proof (Byte.to_N_bounded c2).
  repeat split; apply to_N_inj; lia.
Qed.

Lemma b64_char_sextet_inj k n m :
  b64_char (sextet k n) = b64_char (sextet k m) -> sextet k n = sextet k m.
Proof. apply b64_char_inj; apply sextet_lt. Qed.

End B64Injective.

(** Different byte strings have different encodings. *)
Lemma b64encode_inj s : forall s', b64encode s = b64encode s' -> s = s'.
Proof.
  induction s as [|a|a b|a b c l IH] using list_ind3;
    intros [|a' [|b' [|c' l']]] Heq; cbn [b64encode] in Heq;
    try discriminate Heq; try reflexivity.
  all: injection Heq; intros.
  all: try (exfalso;
            match goal with
            | H : b64_char ?i = b64_pad |- _ =>
                exact (b64_char_not_pad i (sextet_lt _ _) H)
            | H : b64_pad = b64_char ?i |- _ =>
                exact (b64_char_not_pad i (sextet_lt _ _) (eq_sym H))
            end).
  all: repeat match goal with
         | H : b64_char _ = b64_char _ |- _ => apply b64_char_sextet_inj in H
         end.
  - destruct (quantum_inj a Byte.x00 Byte.x00 a' Byte.x00 Byte.x00) as (-> & _);
      [|reflexivity].
    intros k [<-|[<-|[<-|[<-|[]]]]]; try assumption.
    + rewrite !(sextet_0_two_bytes _ Byte.x00). reflexivity.
    + rewrite !sextet_1_one_byte. reflexivity.
  - destruct (quantum_inj a b Byte.x00 a' b' Byte.x00) as (-> & -> & _);
      [|reflexivity].
    intros k [<-|[<-|[<-|[<-|[]]]]]; try assumption.
    rewrite !sextet_0_two_bytes. reflexivity.
  - destruct (quantum_inj a b c a' b' c') as (-> & -> & ->).
    { intros k [<-|[<-|[<-|[<-|[]]]]]; assumption. }
    f_equal. f_equal. f_equal. apply IH. assumption.
Qed.

Lemma string_of_list_byte_inj l l' :
  string_of_list_byte l = string_of_list_byte l' -> l = l'.
Proof.
  intros H. rewrite <- (list_byte_of_string_of_list_byte l), H.
  apply list_byte_of_string_of_list_byte.
Qed.

(** X13. The image url determines the image: byte strings that differ
    give different data URIs, so nothing of the file is lost on the way to
    the gateway. *)
Theorem data_uri_injective data data' :
  task_openai_itt.data_uri (decode_utf8 (b64encode data))
  = task_openai_itt.data_uri (decode_utf8 (b64encode data')) ->
  data = data'.
Proof.
  unfold task_openai_itt.data_uri, decode_utf8. intros H.
  apply String.app_inj in H. apply string_of_list_byte_inj in H.
  apply b64encode_inj, H.
Qed.

Lemma data_uri_injective_witness :
  task_openai_itt.data_uri (decode_utf8 (b64encode png_header))
  = task_openai_itt.data_uri (decode_utf8 (b64encode png_header)) /\
  png_header = png_header.
Proof.
  split; [reflexivity|].
  exact (data_uri_injective png_header png_header eq_refl).
Defined.
